(** * telliot: the index tracker (pkg/tracker/index) and the store set-up of
    the mine command (cmd/telliot), embedded shallowly.

    Durations are Go's [time.Duration]: an [int64] count of nanoseconds,
    modelled as [Z].  Prices and volumes are [float64], modelled by the
    primitive binary64 floats.  Go maps are [gmap]s. *)

From Stdlib Require Import ZArith List Ascii String Lia Sorted.
From Stdlib Require Import Floats.PrimFloat Numbers.Cyclic.Int63.Uint63.
From stdpp Require Import gmap strings list fin_maps.

Local Open Scope string_scope.
Local Open Scope Z_scope.

(** ** Go's [time] package: the constants and the part of [time.Time] the
    tracker uses. *)
Module time.

Definition Nanosecond : Z := 1.
Definition Microsecond : Z := 1000 * Nanosecond.
Definition Millisecond : Z := 1000 * Microsecond.
Definition Second : Z := 1000 * Millisecond.
Definition Minute : Z := 60 * Second.
Definition Hour : Z := 60 * Minute.

(** A wall-clock instant as [time.Unix sec nsec] builds it: seconds since
    the Unix epoch and the nanoseconds within the second. *)
Record Time := Unix { unixSec : Z; nsec : Z }.

(** The zero value [time.Time{}]: January 1, year 1, 00:00:00 UTC. *)
Definition zero : Time := Unix (-62135596800) 0.

Definition IsZero (t : Time) : bool :=
  (unixSec t =? unixSec zero) && (nsec t =? 0).

(** [t.After(u)]. *)
Definition After (t u : Time) : bool :=
  (unixSec u <? unixSec t) || ((unixSec u =? unixSec t) && (nsec u <? nsec t)).

End time.

(** [int64] wrap-around. *)
Definition wrap64 (z : Z) : Z := (z + 2 ^ 63) mod 2 ^ 64 - 2 ^ 63.

(** prometheus/pkg/timestamp: [FromTime] is
    [t.Unix()*1000 + int64(t.Nanosecond())/int64(time.Millisecond)], the
    store's millisecond timestamp. *)
Module timestamp.

Definition FromTime (t : time.Time) : Z :=
  wrap64 (wrap64 (time.unixSec t * 1000)
          + Z.quot (time.nsec t) time.Millisecond).

End timestamp.

(** ** cmd/telliot: how [mineCmd.Run] opens the store. *)
Module cmds.

(** [tsdbOptions.RetentionDuration = int64(2 * 24 * time.Hour)]. *)
Definition RetentionDuration : Z := wrap64 (2 * 24 * time.Hour).

(** The store counts time in milliseconds (the unit of the timestamps
    [timestamp.FromTime] hands to [Append]), so a retention of
    [RetentionDuration] store units lasts this many nanoseconds. *)
Definition effectiveRetention : Z := RetentionDuration * time.Millisecond.

End cmds.

(** ** pkg/errors and Go's [(value, error)] returns. *)

Definition error : Type := string.

Inductive result (A : Type) : Type :=
| Ok (a : A)
| Err (e : error).
Arguments Ok {A} a.
Arguments Err {A} e.

(** [errors.Wrap(err, msg)] and [errors.Wrapf]: annotate [err]; a nil [err]
    stays nil. *)
Definition Wrap (err : option error) (msg : string) : option error :=
  match err with
  | None => None
  | Some e => Some (String.append msg (String.append ": " e))
  end.

(** [errors.New(msg)]. *)
Definition errors_New (msg : string) : option error := Some msg.

(** ** pkg/tracker/index: configuration and catalog descriptors. *)

Module Config.
Record t := mk {
  LogLevel : string;
  Interval : Z;
  FetchTimeout : Z;
  ApiFile : string;
  ManualDataFile : string
}.
End Config.

Definition httpSource : string := "http".
Definition ethereumSource : string := "ethereum".
Definition manualSource : string := "manualData".

Definition fileParser : string := "jsonPath".
Definition jsonPathParser : string := "jsonPath".
Definition uniswapParser : string := "Uniswap".
Definition balancerParser : string := "Balancer".

(** [Api], one descriptor of the index file ([Type_] is the field [Type]). *)
Module Api.
Record t := mk {
  URL : string;
  Type_ : string;
  Parser : string;
  Param : string;
  Interval : Z
}.
Definition withURL (a : t) (u : string) : t :=
  mk u (Type_ a) (Parser a) (Param a) (Interval a).
Definition withType (a : t) (ty : string) : t :=
  mk (URL a) ty (Parser a) (Param a) (Interval a).
Definition withParser (a : t) (p : string) : t :=
  mk (URL a) (Type_ a) p (Param a) (Interval a).
Definition withInterval (a : t) (i : Z) : t :=
  mk (URL a) (Type_ a) (Parser a) (Param a) i.
End Api.

(** ** Parsers and data sources. *)

Record JsonPathParser := { param : string }.

(** A [Parser] interface value; [None] is the nil interface. *)
Definition Parser : Type := option JsonPathParser.

Definition NewParser (t : Api.t) : Parser :=
  if String.eqb (Api.Parser t) jsonPathParser
  then Some {| param := Api.Param t |}
  else None.

(** What [Get] and [Parse] return: [(price, volume, timestamp, err)]. *)
Record Values := {
  price : float;
  volume : float;
  ts : time.Time;
  err : option error
}.

(** Modelled from the spec: the on-chain sources ([NewUniswap],
    [NewBalancer] and the methods of what they build) are outside the source
    tree.  A source keeps the symbol, the resolved address and the interval it
    is built with; [Interval] returns that interval and [Source] the address. *)
Record OnChain := {
  oc_symbol : string;
  oc_address : string;
  oc_interval : Z
}.

(** The implementations of the [DataSource] interface. *)
Inductive DataSource :=
| JSONapi (url : string) (retryDelay interval : Z) (parser : Parser)
| JSONfile (parser : Parser) (filepath : string)
| Uniswap (pool : OnChain)
| Balancer (pool : OnChain).

Definition NewJSONapi (interval retryDelay : Z) (url : string) (parser : Parser)
  : DataSource := JSONapi url retryDelay interval parser.

Definition NewJSONfile (filepath : string) (parser : Parser) : DataSource :=
  JSONfile parser filepath.

Definition NewUniswap (symbol address : string) (interval : Z) : DataSource :=
  Uniswap {| oc_symbol := symbol; oc_address := address; oc_interval := interval |}.

Definition NewBalancer (symbol address : string) (interval : Z) : DataSource :=
  Balancer {| oc_symbol := symbol; oc_address := address; oc_interval := interval |}.

Definition Interval (self : DataSource) : Z :=
  match self with
  | JSONapi _ _ interval _ => interval
  | JSONfile _ _ => 0
  | Uniswap pool => oc_interval pool
  | Balancer pool => oc_interval pool
  end.

Definition Source (self : DataSource) : string :=
  match self with
  | JSONapi url _ _ _ => url
  | JSONfile _ filepath => filepath
  | Uniswap pool => oc_address pool
  | Balancer pool => oc_address pool
  end.

(** ** The world outside the package: the file system, the environment,
    the network, the chain client and the helpers of sibling packages, as
    they answer at one moment. *)
Record World := {
  (** [os.Expand(url, os.Getenv)]. *)
  os_Expand : string -> string;
  (** [ioutil.ReadFile(path)]. *)
  ReadFile : string -> result string;
  (** [json.Unmarshal] of the index file into [map[string][]Api], listed in
      the order in which [range] then visits the map (keys are distinct). *)
  Unmarshal_indexes : string -> result (list (string * list Api.t));
  (** [client.NetworkID(ctx)]. *)
  NetworkID : result Z;
  (** [ethereum.GetAddressForNetwork(url, networkID)]. *)
  GetAddressForNetwork : string -> Z -> result string;
  (** [http.Fetch(ctx, logger, url, retryDelay)]. *)
  http_Fetch : string -> Z -> result string;
  (** [JsonPathParser.Parse]: JSON decoding, the JSON path and the float
      parsing are library calls. *)
  Parse : JsonPathParser -> string -> Values;
  (** [Get] of the on-chain sources, by symbol and address. *)
  onchain_Get : string -> string -> Values;
  (** [util.SanitizeMetricName]. *)
  SanitizeMetricName : string -> string
}.

Definition zeroValues (e : error) : Values :=
  {| price := 0%float; volume := 0%float; ts := time.zero; err := Some e |}.

(** [self.Parse(b)] through the embedded [Parser]: calling it on the nil
    interface panics ([None]). *)
Definition callParse (w : World) (p : Parser) (b : string) : option Values :=
  match p with
  | Some jp => Some (Parse w jp b)
  | None => None
  end.

(** [DataSource.Get]; [None] is a panic. *)
Definition Get (w : World) (self : DataSource) : option Values :=
  match self with
  | JSONapi url retryDelay _ parser =>
      match http_Fetch w url retryDelay with
      | Err e => Some (zeroValues (String.append "fetching data from API: " e))
      | Ok vals => callParse w parser vals
      end
  | JSONfile parser filepath =>
      match ReadFile w filepath with
      | Err e => Some (zeroValues e)
      | Ok b => callParse w parser b
      end
  | Uniswap pool => Some (onchain_Get w (oc_symbol pool) (oc_address pool))
  | Balancer pool => Some (onchain_Get w (oc_symbol pool) (oc_address pool))
  end.

(** ** [JsonPathParser.Parse]. *)

(** What [json.Unmarshal] stores in an [interface{}]. *)
#[local] Unset Elimination Schemes.
Inductive JSON :=
| JNull
| JBool (b : bool)
| JNumber (f : float)
| JString (s : string)
| JArray (items : list JSON)
| JObject (fields : list (string * JSON)).
#[local] Set Elimination Schemes.

(** The library calls of [Parse]. *)
Record Libs := {
  (** [json.Unmarshal(input, &output)]. *)
  json_Unmarshal : string -> result JSON;
  (** [jsonpath.Read(output, param)]. *)
  jsonpath_Read : JSON -> string -> result JSON;
  (** [fmt.Sprintf("%v", a)]. *)
  Sprintf_v : JSON -> string;
  (** [strconv.ParseFloat(s, 64)]. *)
  ParseFloat : string -> result float;
  (** The conversion [int64(val)]. *)
  int64_of_float : float -> Z
}.

(** [strings.Replace(s, ",", "", -1)]: every comma is dropped. *)
Fixpoint stripCommas (s : string) : string :=
  match s with
  | EmptyString => EmptyString
  | String c s' =>
      if Ascii.eqb c ","%char then stripCommas s' else String c (stripCommas s')
  end.

(** [for i, a := range resultList], from index [i] on. *)
Fixpoint parseItems (L : Libs) (i : nat) (resultList : list JSON)
  (price volume : float) (timestamp : time.Time) : Values :=
  match resultList with
  | [] => {| price := price; volume := volume; ts := timestamp; err := None |}
  | a :: rest =>
      let strValue := Sprintf_v L a in
      (* Normalize based on american locale. *)
      let strValue := stripCommas strValue in
      match i with
      | 0%nat =>
          match ParseFloat L strValue with
          | Err e =>
              {| price := 0%float; volume := 0%float; ts := timestamp;
                 err := Wrap (Some e) "price needs to be a valid float" |}
          | Ok val => parseItems L (S i) rest val volume timestamp
          end
      | 1%nat =>
          match ParseFloat L strValue with
          | Err e =>
              {| price := 0%float; volume := 0%float; ts := timestamp;
                 err := Wrap (Some e) "volume needs to be a valid float" |}
          | Ok val => parseItems L (S i) rest price val timestamp
          end
      | 2%nat =>
          match ParseFloat L strValue with
          | Err e =>
              {| price := 0%float; volume := 0%float; ts := timestamp;
                 err := Wrap (Some e) "timestamp needs to be a valid float" |}
          | Ok val =>
              parseItems L (S i) rest price volume
                (time.Unix (int64_of_float L val) 0)
          end
      | _ => parseItems L (S i) rest price volume timestamp
      end
  end.

Definition JsonPathParser_Parse (L : Libs) (self : JsonPathParser)
  (input : string) : Values :=
  let timestamp := time.zero in
  match json_Unmarshal L input with
  | Err e =>
      {| price := 0%float; volume := 0%float; ts := timestamp; err := Some e |}
  | Ok output =>
      match jsonpath_Read L output (param self) with
      | Err e =>
          {| price := 0%float; volume := 0%float; ts := timestamp; err := Some e |}
      | Ok output =>
          (* Expect result to be a slice of float or a single float value. *)
          let resultList :=
            match output with
            | JArray result => result
            | result => [result]
            end in
          (* Parse each item of slice to a float. *)
          parseItems L 0 resultList 0%float 0%float timestamp
      end
  end.

(** ** [createDataSources]. *)

(** One pass of the inner loop body either builds the source to append or
    makes [createDataSources] return: every early return hands back a nil
    map together with the error value shown. *)
Inductive BodyResult :=
| Built (source : DataSource)
| Return (err : option error).

Definition applyDefaults (w : World) (cfg : Config.t) (api : Api.t) : Api.t :=
  let api := Api.withURL api (os_Expand w (Api.URL api)) in
  (* Default value for the api type. *)
  let api := if String.eqb (Api.Type_ api) "" then Api.withType api httpSource
             else api in
  let api := if negb (Api.Interval api =? 0)
             then Api.withInterval api (Config.Interval cfg) else api in
  (* Default value for the parser. *)
  if String.eqb (Api.Parser api) "" then Api.withParser api jsonPathParser
  else api.

Definition createDataSource (w : World) (cfg : Config.t) (symbol : string)
  (api : Api.t) : BodyResult :=
  let api := applyDefaults w cfg api in
  if String.eqb (Api.Type_ api) httpSource then
    Built (NewJSONapi (Api.Interval api) (Config.FetchTimeout cfg)
              (Api.URL api) (NewParser api))
  else if String.eqb (Api.Type_ api) manualSource then
    Built (NewJSONfile (Config.ManualDataFile cfg) (NewParser api))
  else if String.eqb (Api.Type_ api) ethereumSource then
    match NetworkID w with
    | Err e => Return (Some e)
    | Ok networkID =>
        (* [networkID.Int64()] *)
        match GetAddressForNetwork w (Api.URL api) (wrap64 networkID) with
        | Err e => Return (Wrap (Some e) "getting address for network id")
        | Ok address =>
            if String.eqb (Api.Parser api) uniswapParser then
              Built (NewUniswap symbol address (Api.Interval api))
            else if String.eqb (Api.Parser api) balancerParser then
              Built (NewBalancer symbol address (Api.Interval api))
            else
              (* [err] is the nil error of the two calls above. *)
              Return (Wrap None "unknown source for on-chain index tracker")
        end
    end
  else Return (errors_New "unknown index type for index object").

(** [dataSources[symbol] = append(dataSources[symbol], source)]. *)
Definition appendSource (symbol : string) (source : DataSource)
  (dataSources : gmap string (list DataSource)) : gmap string (list DataSource) :=
  <[symbol := (default [] (dataSources !! symbol) ++ [source])%list]> dataSources.

(** [for _, api := range apis]. *)
Fixpoint rangeApis (w : World) (cfg : Config.t) (symbol : string)
  (apis : list Api.t) (dataSources : gmap string (list DataSource))
  : gmap string (list DataSource) + option error :=
  match apis with
  | [] => inl dataSources
  | api :: apis' =>
      match createDataSource w cfg symbol api with
      | Return e => inr e
      | Built source =>
          rangeApis w cfg symbol apis' (appendSource symbol source dataSources)
      end
  end.

(** [for symbol, apis := range indexes]. *)
Fixpoint rangeIndexes (w : World) (cfg : Config.t)
  (indexes : list (string * list Api.t))
  (dataSources : gmap string (list DataSource))
  : gmap string (list DataSource) + option error :=
  match indexes with
  | [] => inl dataSources
  | (symbol, apis) :: indexes' =>
      match rangeApis w cfg symbol apis dataSources with
      | inr e => inr e
      | inl dataSources' => rangeIndexes w cfg indexes' dataSources'
      end
  end.

(** The returned pair [(map, error)]; the nil map is the empty map. *)
Definition createDataSources (w : World) (cfg : Config.t)
  : gmap string (list DataSource) * option error :=
  match ReadFile w (Config.ApiFile cfg) with
  | Err e =>
      (∅, Wrap (Some e) (String.append "read index file path:" (Config.ApiFile cfg)))
  | Ok byteValue =>
      match Unmarshal_indexes w byteValue with
      | Err e => (∅, Wrap (Some e) "parse index file")
      | Ok indexes =>
          match rangeIndexes w cfg indexes ∅ with
          | inr e => (∅, e)
          | inl dataSources => (dataSources, None)
          end
      end
  end.

(** The descriptor types that need no chain client, and those the loader
    knows. *)
Definition plain (api : Api.t) : Prop :=
  Api.Type_ api = httpSource \/ Api.Type_ api = "" \/ Api.Type_ api = manualSource.

Definition knownType (api : Api.t) : Prop :=
  plain api \/ Api.Type_ api = ethereumSource.

(** ** The tracker. *)

(** The fields of [IndexTracker] fixed at construction; the store, the
    cancellation signal and the metric vectors are in [State] below. *)
Record IndexTracker := {
  cfg : Config.t;
  dataSources : gmap string (list DataSource)
}.

Definition New (w : World) (cfg : Config.t) : result IndexTracker :=
  match createDataSources w cfg with
  | (_, Some e) => Err (String.append "create data sources: " e)
  | (dataSources, None) => Ok {| cfg := cfg; dataSources := dataSources |}
  end.

(** The goroutines [Run] starts, with the arguments it passes them. *)
Inductive Goroutine :=
| go_recordApiCount (count : Z) (symbol : string)
| go_recordValues (delay : Z) (symbol : string) (interval : Z)
    (dataSource : DataSource).

(** The interval [Run] hands to [recordValues] for one source. *)
Definition runInterval (self : IndexTracker) (dataSource : DataSource) : Z :=
  (* Use the default interval when not set. *)
  let interval := Interval dataSource in
  if interval =? 0 then Config.Interval (cfg self) else interval.

(** The body of [for symbol, dataSources := range self.dataSources]. *)
Definition runSymbol (self : IndexTracker) (symbol : string)
  (dataSources : list DataSource) : list Goroutine :=
  go_recordApiCount (Z.of_nat (length dataSources)) symbol
  :: imap (fun delay dataSource =>
             go_recordValues (Z.of_nat delay) symbol
               (runInterval self dataSource) dataSource)
       dataSources.

Definition Run (self : IndexTracker) : list Goroutine :=
  flat_map (fun '(symbol, dataSources) => runSymbol self symbol dataSources)
    (map_to_list (dataSources self)).

(** [recordValues] starts with [time.Sleep(time.Duration(delay))] and
    [recordApiCount] with no sleep: the time from the start of the goroutine
    to its loop, in nanoseconds.  The conversion of the [int] index to the
    [int64] duration keeps its value. *)
Definition startupSleep (g : Goroutine) : Z :=
  match g with
  | go_recordApiCount _ _ => 0
  | go_recordValues delay _ _ _ => delay
  end.

(** The period of the ticker the goroutine opens with [time.NewTicker]. *)
Definition tickerPeriod (self : IndexTracker) (g : Goroutine) : Z :=
  match g with
  | go_recordApiCount _ _ => Config.Interval (cfg self)
  | go_recordValues _ _ interval _ => interval
  end.

(** ** The store, the metric vectors and the cancellation signal. *)

(** One sample of the store: [Append(ref, labels, t, v)]. *)
Record Sample := {
  labels : list (string * string);
  timestampMs : Z;
  value : float
}.

(** What the goroutines share: [self.ctx] (whether [Done] is closed), the
    committed samples of [self.tsDB] in commit order, and the metric vectors
    by their [source] label. *)
Record State := {
  cancelled : bool;
  tsDB : list Sample;
  getErrors : gmap string Z;
  prices : gmap string float;
  volumes : gmap string float
}.

Definition initState : State :=
  {| cancelled := false; tsDB := []; getErrors := ∅; prices := ∅; volumes := ∅ |}.

(** What one pass of a loop body observes: the outside world, the answers
    of the first, second and third [time.Now()] call site of the body in
    program order, and the error of [appender.Commit()]. *)
Record Obs := {
  world : World;
  now1 : time.Time;
  now2 : time.Time;
  now3 : time.Time;
  commitErr : option error
}.

(** [getErrors.With(source).Inc()]. *)
Definition incGetErrors (source : string) (st : State) : State :=
  {| cancelled := cancelled st;
     tsDB := tsDB st;
     getErrors := <[source := default 0 (getErrors st !! source) + 1]> (getErrors st);
     prices := prices st;
     volumes := volumes st |}.

(** [prices.With(source).Set(price)] and [volumes.With(source).Set(volume)]. *)
Definition setGauges (source : string) (price volume : float) (st : State) : State :=
  {| cancelled := cancelled st;
     tsDB := tsDB st;
     getErrors := getErrors st;
     prices := <[source := price]> (prices st);
     volumes := <[source := volume]> (volumes st) |}.

(** [appender.Commit()] of the samples appended to the appender: all of
    them become visible, or on an error none. *)
Definition Commit (commitErr : option error) (batch : list Sample) (st : State)
  : State :=
  match commitErr with
  | Some _ => st
  | None =>
      {| cancelled := cancelled st;
         tsDB := (tsDB st ++ batch)%list;
         getErrors := getErrors st;
         prices := prices st;
         volumes := volumes st |}
  end.

Definition PriceSuffix : string := "_price".
Definition VolumeSuffix : string := "_volume".
Definition ApiCountSuffix : string := "_api_count".

(** How a loop body ends: blocked on [<-ticker.C], or in a panic. *)
Inductive Outcome :=
| WaitTick (st : State)
| Panicked.

(** The two [appender.Append] calls of [recordValues]. *)
Definition valueSamples (symbol : string) (dataSource : DataSource) (o : Obs)
  (price volume : float) : list Sample :=
  [ {| labels := [("__name__",
                   SanitizeMetricName (world o) (String.append symbol PriceSuffix));
                  ("source", Source dataSource)];
       timestampMs := timestamp.FromTime (now2 o);
       value := price |};
    {| labels := [("__name__",
                   SanitizeMetricName (world o) (String.append symbol VolumeSuffix));
                  ("source", Source dataSource)];
       timestampMs := timestamp.FromTime (now3 o);
       value := volume |} ].

(** One pass of the [for] body of [recordValues], from [dataSource.Get] to
    the receive on the ticker. *)
Definition recordValuesBody (symbol : string) (dataSource : DataSource)
  (o : Obs) (st : State) : Outcome :=
  match Get (world o) dataSource with
  | None => Panicked
  | Some vals =>
      match err vals with
      | Some _ => WaitTick (incGetErrors (Source dataSource) st)
      | None =>
          (* Only manual entries expose ts so ignore zero values. *)
          if negb (time.IsZero (ts vals)) && time.After (now1 o) (ts vals)
          then WaitTick st
          else
            (* Record the actual price and volume for this data source. *)
            let batch :=
              valueSamples symbol dataSource o (price vals) (volume vals) in
            let st' := Commit (commitErr o) batch st in
            match commitErr o with
            | Some _ => WaitTick st'
            | None =>
                WaitTick (setGauges (Source dataSource) (price vals) (volume vals) st')
            end
      end
  end.

(** [float64(count)] of a non-negative [int]. *)
Definition float64_of_int (count : Z) : float :=
  PrimFloat.of_uint63 (Uint63.of_Z count).

(** The [appender.Append] call of [recordApiCount]; [Round(0)] only strips
    the monotonic clock reading. *)
Definition countSamples (count : Z) (symbol : string) (o : Obs) : list Sample :=
  [ {| labels := [("__name__",
                   SanitizeMetricName (world o) (String.append symbol ApiCountSuffix))];
       timestampMs := timestamp.FromTime (now1 o);
       value := float64_of_int count |} ].

(** One pass of the [for] body of [recordApiCount]. *)
Definition recordApiCountBody (count : Z) (symbol : string) (o : Obs)
  (st : State) : Outcome :=
  WaitTick (Commit (commitErr o) (countSamples count symbol o) st).

(** ** The goroutines as interleaved state machines. *)

(** Where a goroutine stands: before its loop (in the start-up sleep of
    [recordValues], its ticker not yet open), at the [select] on [ctx.Done()]
    that opens every pass, past it and inside the body, blocked on the ticker,
    or returned. *)
Inductive pc := Starting | Selecting | InBody | AwaitTick | Exited.

(** A goroutine with the period it opens its ticker with. *)
Record Worker := {
  code : Goroutine;
  period : Z;
  at_ : pc
}.

Definition goto (wk : Worker) (p : pc) : Worker :=
  {| code := code wk; period := period wk; at_ := p |}.

Definition body (g : Goroutine) (o : Obs) (st : State) : Outcome :=
  match g with
  | go_recordApiCount count symbol => recordApiCountBody count symbol o st
  | go_recordValues _ symbol _ dataSource => recordValuesBody symbol dataSource o st
  end.

(** One move of one goroutine; [None] is a panic.  [time.NewTicker]
    panics on a period that is not positive. *)
Definition stepWorker (o : Obs) (wk : Worker) (st : State)
  : option (Worker * State) :=
  match at_ wk with
  | Starting =>
      if period wk <=? 0 then None else Some (goto wk Selecting, st)
  | Selecting =>
      if cancelled st then Some (goto wk Exited, st)
      else Some (goto wk InBody, st)
  | InBody =>
      match body (code wk) o st with
      | WaitTick st' => Some (goto wk AwaitTick, st')
      | Panicked => None
      end
  | AwaitTick => Some (goto wk Selecting, st)
  | Exited => Some (wk, st)
  end.

Record System := {
  state : State;
  workers : list Worker;
  crashed : bool
}.

(** [Cancel] closes [ctx.Done()] ([Stop], or the parent context);
    [Step i o] lets goroutine [i] make its next move, observing [o]. *)
Inductive Event :=
| Cancel
| Step (i : nat) (o : Obs).

Definition cancel (st : State) : State :=
  {| cancelled := true;
     tsDB := tsDB st;
     getErrors := getErrors st;
     prices := prices st;
     volumes := volumes st |}.

(** A panic in any goroutine ends the process. *)
Definition step (ev : Event) (s : System) : System :=
  if crashed s then s
  else
    match ev with
    | Cancel =>
        {| state := cancel (state s); workers := workers s; crashed := false |}
    | Step i o =>
        match workers s !! i with
        | None => s
        | Some wk =>
            match stepWorker o wk (state s) with
            | None =>
                {| state := state s; workers := workers s; crashed := true |}
            | Some (wk', st') =>
                {| state := st'; workers := <[i := wk']> (workers s);
                   crashed := false |}
            end
        end
    end.

Definition run (evs : list Event) (s : System) : System :=
  fold_left (fun s ev => step ev s) evs s.

Definition spawn (self : IndexTracker) (g : Goroutine) : Worker :=
  {| code := g; period := tickerPeriod self g; at_ := Starting |}.

(** The process right after [Run] has started its goroutines. *)
Definition start (self : IndexTracker) : System :=
  {| state := initState; workers := map (spawn self) (Run self); crashed := false |}.

(** The samples event [ev] adds to the store when it is a move of
    goroutine [i]. *)
Definition added (i : nat) (ev : Event) (s : System) : list Sample :=
  match ev with
  | Step j _ =>
      if Nat.eqb j i
      then drop (length (tsDB (state s))) (tsDB (state (step ev s)))
      else []
  | Cancel => []
  end.

(** The samples the moves of goroutine [i] add to the store, in order. *)
Fixpoint writes (i : nat) (evs : list Event) (s : System) : list Sample :=
  match evs with
  | [] => []
  | ev :: evs' => (added i ev s ++ writes i evs' (step ev s))%list
  end.

(** The samples a goroutine caught inside its body can still append. *)
Definition inflightOf (wk : Worker) : nat :=
  match at_ wk, code wk with
  | InBody, go_recordValues _ _ _ _ => 2
  | InBody, go_recordApiCount _ _ => 1
  | _, _ => 0
  end.

Definition inflight (s : System) : nat :=
  if crashed s then 0%nat else list_sum (map inflightOf (workers s)).

(** How many moves of its own a goroutine needs to return once the signal
    is set. *)
Definition movesLeft (p : pc) : nat :=
  match p with
  | InBody => 3
  | Starting => 2
  | AwaitTick => 2
  | Selecting => 1
  | Exited => 0
  end.

(** The number of moves of goroutine [i] among the events. *)
Definition moves (i : nat) (evs : list Event) : nat :=
  length (List.filter (fun ev => match ev with
                                 | Step j _ => Nat.eqb j i
                                 | Cancel => false
                                 end) evs).

(** ** cmd/telliot: the commands. *)

(** [getAccountFor]; the inner [None] is the panic of an index out of
    range. *)
Definition getAccountFor {Account : Type} (accounts : list Account)
  (accountNo : Z) : option (result Account) :=
  if (accountNo <? 0) || (accountNo >=? Z.of_nat (length accounts))
  then Some (Err "account not found")
  else
    match accounts !! Z.to_nat accountNo with
    | Some account => Some (Ok account)
    | None => None
    end.

(** What the commands call outside this file; an account stands for the
    record of its address and key, and the client and the contract handles
    are left out. *)
Record CmdEnv := {
  (** [parseConfig(path)], of which the commands use [cfg.Ethereum]. *)
  parseConfig : string -> result string;
  (** [createTellorVariables(ctx, logger, cfg.Ethereum)]: the accounts. *)
  createTellorVariables : string -> result (list string);
  (** [ETHAddress.Set(s)]. *)
  ETHAddress_Set : string -> result string;
  (** [ops.WithdrawStake(ctx, logger, client, contract, account)]. *)
  ops_WithdrawStake : string -> option error;
  (** [ethereum.PrepareEthTransaction(ctx, client, account)]. *)
  PrepareEthTransaction : string -> result string;
  (** [contract.Migrate(auth)]: the hash of the transaction. *)
  contract_Migrate : string -> result string
}.



(** The loop of [migrateCmd.Run] over the accounts: the hashes of the
    transactions sent, in order, and the error returned. *)
Fixpoint migrateAccounts (env : CmdEnv) (accounts : list string)
  : list string * option error :=
  match accounts with
  | [] => ([], None)
  | account :: rest =>
      match PrepareEthTransaction env account with
      | Err e => ([], Wrap (Some e) "prepare ethereum transaction")
      | Ok auth =>
          match contract_Migrate env auth with
          | Err e => ([], Wrap (Some e) "contract failed")
          | Ok tx =>
              let (txs, err) := migrateAccounts env rest in
              (tx :: txs, err)
          end
      end
  end.

(** [migrateCmd.Run]. *)
Definition migrateCmd_Run (env : CmdEnv) (config : string)
  : list string * option error :=
  match parseConfig env config with
  | Err e => ([], Wrap (Some e) "creating config")
  | Ok cfg =>
      match createTellorVariables env cfg with
      | Err e => ([], Wrap (Some e) "creating tellor variables")
      | Ok accounts => migrateAccounts env accounts
      end
  end.

(** [mineCmd.Run] completes the aggregator's threshold from the tracker's
    interval before it builds the two. *)
Definition defaultConfidIntvThreshold (threshold interval : Z) : Z :=
  if threshold =? 0
  then
    (* Values outside the default tracker interval are not used and decrease
       the confidence level. *)
    wrap64 (interval + time.Second)
  else threshold.

(** Whether [Get] of the source has a parser to call. *)
Definition parserSet (ds : DataSource) : bool :=
  match ds with
  | JSONapi _ _ _ None => false
  | JSONfile None _ => false
  | _ => true
  end.

(** A goroutine that cannot panic: its ticker period is positive and, for a
    value loop, its source has a parser. *)
Definition sound (wk : Worker) : Prop :=
  0 < period wk /\
  match code wk with
  | go_recordApiCount _ _ => True
  | go_recordValues _ _ _ ds => parserSet ds = true
  end.

(** ** The tracker of the current variables ([CurrentVariablesTracker]). *)

(** The keys of package [db] that [Exec] uses. *)
Inductive Key :=
| PendingChallengeKey
| CurrentChallengeKey
| RequestIdKey
| DifficultyKey
| QueryStringKey
| GranularityKey
| TotalTipKey
| MiningStatusKey.

(** What [instance.GetCurrentVariables(nil)] returns. *)
Record CurrentVariables := {
  currentChallenge : string;
  requestID : Z;
  difficulty : Z;
  queryString : string;
  granularity : Z;
  totalTip : Z
}.

(** What [Exec] calls: the configuration, the contract and the database, as
    they answer during one call.  Byte slices are strings. *)
Record ExecWorld := {
  (** [config.GetConfig()], of which [Exec] uses [cfg.PublicAddress]. *)
  GetConfig : result string;
  (** [common.HexToAddress]. *)
  HexToAddress : string -> string;
  GetCurrentVariables : result CurrentVariables;
  (** [instance.DidMine(nil, challenge, address)]. *)
  DidMine : string -> string -> result bool;
  db_Get : Key -> result string;
  db_Put : Key -> string -> option error;
  db_Delete : Key -> option error;
  (** [hexutil.EncodeBig]. *)
  EncodeBig : Z -> string
}.

(** The calls [Exec] makes on the database, in order. *)
Inductive DBCall :=
| DBGet (key : Key)
| DBPut (key : Key) (value : string)
| DBDelete (key : Key).

(** How [Exec] ends: [log.Fatal] ends the process, otherwise it returns its
    error. *)
Inductive Exits :=
| LogFatal (e : error)
| Returns (e : option error).

(** A step of [Exec]: it adds its database calls to the log and yields a
    value or ends the function. *)
Definition Step_ (A : Type) : Type := list DBCall -> list DBCall * (A + Exits).

Definition ret {A : Type} (a : A) : Step_ A := fun log => (log, inl a).

Definition bind {A B : Type} (m : Step_ A) (k : A -> Step_ B) : Step_ B :=
  fun log =>
    match m log with
    | (log', inl a) => k a log'
    | (log', inr exit) => (log', inr exit)
    end.

Notation "'call' x <~ m 'then' k" := (bind m (fun x => k))
  (at level 10, x name, m at level 100, k at level 200, only parsing).

(** [if err != nil { return err }]. *)
Definition orReturn {A : Type} (r : result A) : Step_ A :=
  fun log => (log, match r with
                   | Ok a => inl a
                   | Err e => inr (Returns (Some e))
                   end).

(** [if err != nil { log.Fatal(err) }]. *)
Definition orFatal {A : Type} (r : result A) : Step_ A :=
  fun log => (log, match r with
                   | Ok a => inl a
                   | Err e => inr (LogFatal e)
                   end).

Definition DB_Get (w : ExecWorld) (key : Key) : Step_ string :=
  fun log => ((log ++ [DBGet key])%list,
              match db_Get w key with
              | Ok v => inl v
              | Err e => inr (Returns (Some e))
              end).

Definition DB_Put (w : ExecWorld) (key : Key) (value : string) : Step_ unit :=
  fun log => ((log ++ [DBPut key value])%list,
              match db_Put w key value with
              | None => inl tt
              | Some e => inr (Returns (Some e))
              end).

Definition DB_Delete (w : ExecWorld) (key : Key) : Step_ unit :=
  fun log => ((log ++ [DBDelete key])%list,
              match db_Delete w key with
              | None => inl tt
              | Some e => inr (Returns (Some e))
              end).

(** [copy(dst[:n], src)] into a zeroed array: the first [n] bytes of [src],
    filled up with zero bytes. *)
Fixpoint copyInto (n : nat) (src : string) : string :=
  match n with
  | O => EmptyString
  | S n' =>
      match src with
      | EmptyString => String Ascii.zero (copyInto n' EmptyString)
      | String c src' => String c (copyInto n' src')
      end
  end.

Definition byte0 : string := String Ascii.zero EmptyString.
Definition byte1 : string := String Ascii.one EmptyString.

(** [CurrentVariablesTracker.Exec]: the database calls it makes and how it
    ends. *)
Definition Exec (w : ExecWorld) : list DBCall * Exits :=
  let steps : Step_ unit :=
    (* get the single config instance; get address from config *)
    call _fromAddress <~ orFatal (GetConfig w) then
    (* convert to address *)
    let fromAddress := HexToAddress w _fromAddress in
    call vars <~ orReturn (GetCurrentVariables w) then
    call pendingChallenge <~ DB_Get w PendingChallengeKey then
    call _ <~ (if (0 <? String.length pendingChallenge)%nat
               then
                 call didMine <~ orReturn (DidMine w (copyInto 32 pendingChallenge)
                                             fromAddress) then
                 if didMine : bool then DB_Delete w PendingChallengeKey else ret tt
               else ret tt) then
    (* if we've mined it, don't save it *)
    call myStatus <~ orReturn (DidMine w (currentChallenge vars) fromAddress) then
    let bitSetVar := if myStatus : bool then byte1 else byte0 in
    call _ <~ DB_Put w CurrentChallengeKey (currentChallenge vars) then
    call _ <~ DB_Put w RequestIdKey (EncodeBig w (requestID vars)) then
    call _ <~ DB_Put w DifficultyKey (EncodeBig w (difficulty vars)) then
    call _ <~ DB_Put w QueryStringKey (queryString vars) then
    call _ <~ DB_Put w GranularityKey (EncodeBig w (granularity vars)) then
    call _ <~ DB_Put w TotalTipKey (EncodeBig w (totalTip vars)) then
    DB_Put w MiningStatusKey bitSetVar in
  match steps [] with
  | (log, inl _) => (log, Returns None)
  | (log, inr exit) => (log, exit)
  end.

(** The writes among the calls, in order. *)
Definition puts (log : list DBCall) : list (Key * string) :=
  omap (fun c => match c with DBPut key value => Some (key, value) | _ => None end)
    log.


(** ** The wall clock as the events carry it. *)




(** ** Scenarios: concrete catalogs and worlds to run the code on. *)

(** A world whose index file decodes to [indexes], whose manual-data file
    and HTTP answers parse to [vals], and whose chain client is on network 1
    with an address for every descriptor. *)
Definition worldOf (indexes : list (string * list Api.t)) (vals : Values)
  (file : result string) : World :=
  {| os_Expand := fun url => url;
     ReadFile := fun _ => file;
     Unmarshal_indexes := fun _ => Ok indexes;
     NetworkID := Ok 1;
     GetAddressForNetwork := fun _ _ => Ok "0xabc";
     http_Fetch := fun _ _ => Ok "{}";
     Parse := fun _ _ => vals;
     onchain_Get := fun _ _ => vals;
     SanitizeMetricName := fun name => name |}.

Definition someValues (ts : time.Time) : Values :=
  {| price := 10%float; volume := 0%float; ts := ts; err := None |}.

(** Default interval 30 s, fetch timeout 5 s. *)
Definition cfg30 : Config.t :=
  Config.mk "info" (30 * time.Second) (5 * time.Second)
    "configs/index.json" "configs/manualData.json".

(** One HTTP descriptor that asks for a poll every 60 s. *)
Definition slowHttp : Api.t :=
  Api.mk "http://t/" "http" "jsonPath" "$.p" (60 * time.Second).

(** Descriptors naming a parser that does not exist. *)
Definition httpFoo : Api.t := Api.mk "http://t/" "http" "Foo" "$.p" 0.
Definition manualFoo : Api.t := Api.mk "" "manualData" "Foo" "$.p" 0.
Definition ethereumFoo : Api.t := Api.mk "{}" "ethereum" "Foo" "" 0.
Definition goodHttp : Api.t := Api.mk "http://t/" "http" "jsonPath" "$.p" 0.

(** Two manual descriptors that differ in their [URL] only. *)
Definition manualA : Api.t := Api.mk "a.json" "manualData" "jsonPath" "$.p" 0.
Definition manualB : Api.t := Api.mk "b.json" "manualData" "jsonPath" "$.p" 0.

Definition worldWith (indexes : list (string * list Api.t)) : World :=
  worldOf indexes (someValues time.zero) (Ok "{}").


(** A manual source, and what a pass of its loop may observe: the clock
    reads 1600000000 s and a little more at each later call site. *)
Definition manualSrc : DataSource :=
  JSONfile (Some {| param := "$.p" |}) "configs/manualData.json".

Definition obsOf (vals : Values) (file : result string)
  (commitErr : option error) : Obs :=
  {| world := worldOf [] vals file;
     now1 := time.Unix 1600000000 1000000;
     now2 := time.Unix 1600000000 2000000;
     now3 := time.Unix 1600000000 3000000;
     commitErr := commitErr |}.

(** A pass observed at second [sec], with fresh values and a commit that
    succeeds. *)
Definition obsAt (sec : Z) : Obs :=
  {| world := worldOf [] (someValues time.zero) (Ok "{}");
     now1 := time.Unix sec 1000000;
     now2 := time.Unix sec 2000000;
     now3 := time.Unix sec 3000000;
     commitErr := None |}.

(** A process with the value loop of [manualSrc] and the api-count loop. *)
Definition oneManual : IndexTracker :=
  {| cfg := cfg30; dataSources := {[ "ETH/USD" := [manualSrc] ]} |}.

(** The process of [oneManual] after its value loop has slept and passed
    its [select], and the signal has then tripped. *)
Definition cancelledInFlight : System :=
  run [Step 1 (obsAt 1600000000); Step 1 (obsAt 1600000030); Cancel]
    (start oneManual).

(** What follows: the value loop ends its pass, gets its tick and reaches
    its [select]; the api-count loop opens its ticker and reaches its own. *)
Definition drainEvents : list Event :=
  [ Step 1 (obsAt 1600000060); Step 1 (obsAt 1600000090);
    Step 1 (obsAt 1600000090); Step 0 (obsAt 1600000090);
    Step 0 (obsAt 1600000090) ].

(** The value loop of [oneManual] sleeps, selects, makes a pass, gets its
    tick, selects and makes a second pass, half a minute between its moves. *)
Definition twoPasses : list Event :=
  [ Step 1 (obsAt 1600000000); Step 1 (obsAt 1600000030);
    Step 1 (obsAt 1600000060); Step 1 (obsAt 1600000090);
    Step 1 (obsAt 1600000120); Step 1 (obsAt 1600000150) ].

(** The events that lead [oneManual] to [cancelledInFlight] and on through
    [drainEvents]. *)
Definition cancelledRun : list Event :=
  ([Step 1 (obsAt 1600000000); Step 1 (obsAt 1600000030); Cancel]
   ++ drainEvents)%list.

(** A configuration without a default interval. *)
Definition cfg0 : Config.t :=
  Config.mk "info" 0 (5 * time.Second) "configs/index.json" "configs/manualData.json".


(** A descriptor of a type that does not exist. *)
Definition ftpApi : Api.t := Api.mk "ftp://t/" "ftp" "jsonPath" "$.p" 0.

(** A catalog without on-chain descriptors; one symbol has no descriptor. *)
Definition plainCatalog : list (string * list Api.t) :=
  [ ("BTC/USD", [goodHttp; manualA]); ("ETH/USD", []) ].

(** Library answers to run [Parse] on: the document is the list of its
    top-level items, the path selects them all, a string prints as itself, and
    the only numbers are those listed. *)
Definition toyLibs (doc : list JSON) : Libs :=
  {| json_Unmarshal := fun _ => Ok (JArray doc);
     jsonpath_Read := fun output _ => Ok output;
     Sprintf_v := fun a => match a with JString s => s | _ => "<nil>" end;
     ParseFloat := fun s =>
       if String.eqb s "1234.5" then Ok 1234.5%float
       else if String.eqb s "7" then Ok 7%float
       else if String.eqb s "0" then Ok 0%float
       else Err "invalid syntax";
     int64_of_float := fun f =>
       if PrimFloat.eqb f 7%float then 7 else 0 |}.

(** The same answers, but for a float parser that also takes a string with
    a comma. *)
Definition toyLibs2 (doc : list JSON) : Libs :=
  {| json_Unmarshal := json_Unmarshal (toyLibs doc);
     jsonpath_Read := jsonpath_Read (toyLibs doc);
     Sprintf_v := Sprintf_v (toyLibs doc);
     ParseFloat := fun s =>
       if String.eqb s "1,0" then Ok 7%float else ParseFloat (toyLibs doc) s;
     int64_of_float := int64_of_float (toyLibs doc) |}.

(** A document of a price with a thousands separator, a volume, a time and
    a fourth item that is no number. *)
Definition fourItems : list JSON :=
  [JString "1,234.5"; JString "0"; JString "7"; JString "n/a"].

(** A command environment with two accounts: the first migrates, the
    second is refused by the contract. *)
Definition twoAccounts : CmdEnv :=
  {| parseConfig := fun _ => Ok "ethereum";
     createTellorVariables := fun _ => Ok ["0xaa"; "0xbb"; "0xcc"];
     ETHAddress_Set := fun s => if String.eqb s "" then Err "empty" else Ok s;
     ops_WithdrawStake := fun _ => None;
     PrepareEthTransaction := fun account => Ok account;
     contract_Migrate := fun auth =>
       if String.eqb auth "0xaa" then Ok "tx1" else Err "reverted" |}.

(** A miner with a pending challenge that the contract reports as mined,
    and a database that takes every call. *)
Definition minedWorld : ExecWorld :=
  {| GetConfig := Ok "0xme";
     HexToAddress := fun a => a;
     GetCurrentVariables :=
       Ok {| currentChallenge := "challenge"; requestID := 1; difficulty := 2;
             queryString := "json(https://t/).p"; granularity := 1000;
             totalTip := 0 |};
     DidMine := fun _ _ => Ok true;
     db_Get := fun _ => Ok "pending";
     db_Put := fun _ _ => None;
     db_Delete := fun _ => None;
     EncodeBig := fun z => if z =? 0 then "0x0" else "0x1" |}.

(** * Properties *)

(** ** The retention window of the store. *)

Lemma Hour_ns : time.Hour = 3600000000000.
Proof. reflexivity. Qed.

(** C9.  [mineCmd.Run] means to keep two days of samples, and sets
    [RetentionDuration] to the nanosecond count of 48 hours; the store reads
    the field in milliseconds, in which 48 hours are 172800000, so the window
    it gets is a million times 48 hours. *)
Theorem RetentionDuration_is_nanoseconds :
  cmds.RetentionDuration = 172800000000000 /\
  Z.quot (48 * time.Hour) time.Millisecond = 172800000 /\
  cmds.RetentionDuration <> Z.quot (48 * time.Hour) time.Millisecond /\
  cmds.effectiveRetention = 1000000 * (48 * time.Hour).
Proof. repeat split; vm_compute; congruence. Qed.

(** ** The catalog loader. *)

Section Loader.

Context (w : World) (conf : Config.t).

(** The descriptor after the defaults of the loop body are applied. *)
Lemma applyDefaults_eq api :
  applyDefaults w conf api =
  Api.mk (os_Expand w (Api.URL api))
    (if String.eqb (Api.Type_ api) "" then httpSource else Api.Type_ api)
    (if String.eqb (Api.Parser api) "" then jsonPathParser else Api.Parser api)
    (Api.Param api)
    (if Api.Interval api =? 0 then Api.Interval api else Config.Interval conf).
Proof.
  destruct api as [url ty p prm iv]. unfold applyDefaults. cbn.
  destruct (String.eqb ty ""); cbn; destruct (iv =? 0); cbn;
    destruct (String.eqb p ""); reflexivity.
Qed.

Lemma applyDefaults_Interval api :
  Api.Interval (applyDefaults w conf api) = 0 \/
  Api.Interval (applyDefaults w conf api) = Config.Interval conf.
Proof.
  rewrite applyDefaults_eq. cbn.
  destruct (Z.eqb_spec (Api.Interval api) 0); auto.
Qed.

(** Whatever interval a descriptor carries, the source built from it
    reports zero or the default, and [Run] turns zero into the default. *)
Lemma createDataSource_runInterval symbol api source dss :
  createDataSource w conf symbol api = Built source ->
  runInterval {| cfg := conf; dataSources := dss |} source = Config.Interval conf.
Proof.
  unfold createDataSource, runInterval. cbv zeta.
  pose proof (applyDefaults_Interval api) as Hiv.
  set (api' := applyDefaults w conf api) in *. clearbody api'.
  assert (Hrun : (if Api.Interval api' =? 0 then Config.Interval conf
                  else Api.Interval api') = Config.Interval conf).
  { destruct Hiv as [-> | ->]; [reflexivity |].
    destruct (Z.eqb_spec (Config.Interval conf) 0); congruence. }
  repeat match goal with
    | |- context [if String.eqb ?a ?b then _ else _] =>
        destruct (String.eqb a b)
    | |- context [match ?x with Ok _ => _ | Err _ => _ end] => destruct x
    end;
    cbn; intros H; inversion H; subst; cbn; try reflexivity; exact Hrun.
Qed.

(** A manual descriptor becomes a file source on the configured path; only
    its parser name and parameter reach the source. *)
Lemma createDataSource_manual symbol api :
  Api.Type_ api = manualSource ->
  createDataSource w conf symbol api =
  Built (JSONfile
            (if String.eqb (if String.eqb (Api.Parser api) "" then jsonPathParser
                            else Api.Parser api) jsonPathParser
             then Some {| param := Api.Param api |} else None)
            (Config.ManualDataFile conf)).
Proof.
  intros Hty. unfold createDataSource. cbv zeta.
  rewrite applyDefaults_eq. cbn. rewrite Hty. reflexivity.
Qed.

(** An HTTP or manual descriptor is never refused, whatever its parser. *)
Lemma createDataSource_no_parser_check symbol api :
  Api.Type_ api = httpSource \/ Api.Type_ api = "" \/ Api.Type_ api = manualSource ->
  exists source, createDataSource w conf symbol api = Built source.
Proof.
  intros Hty. unfold createDataSource. cbv zeta.
  rewrite applyDefaults_eq. cbn.
  destruct Hty as [-> | [-> | ->]]; cbn; eauto.
Qed.

(** An on-chain descriptor with any parser but the two on-chain ones makes
    the loader return a nil map and a nil error. *)
Lemma createDataSource_ethereum_other symbol api networkID address :
  Api.Type_ api = ethereumSource ->
  NetworkID w = Ok networkID ->
  GetAddressForNetwork w (os_Expand w (Api.URL api)) (wrap64 networkID) = Ok address ->
  Api.Parser api <> uniswapParser ->
  Api.Parser api <> balancerParser ->
  createDataSource w conf symbol api = Return None.
Proof.
  intros Hty Hnet Haddr Hu Hb. unfold createDataSource. cbv zeta.
  rewrite applyDefaults_eq. cbn. rewrite Hty. cbn. rewrite Hnet, Haddr.
  destruct (String.eqb_spec (Api.Parser api) ""); cbn; [reflexivity |].
  destruct (String.eqb_spec (Api.Parser api) uniswapParser); [contradiction |].
  destruct (String.eqb_spec (Api.Parser api) balancerParser); [contradiction |].
  reflexivity.
Qed.

End Loader.

(** ** What [Run] starts. *)


Lemma runSymbol_in_Run self symbol dss g :
  dataSources self !! symbol = Some dss ->
  g ∈ runSymbol self symbol dss ->
  g ∈ Run self.
Proof.
  intros Hm Hg. unfold Run. apply list_elem_of_In, in_flat_map.
  exists (symbol, dss). split.
  - apply list_elem_of_In, elem_of_map_to_list. exact Hm.
  - apply list_elem_of_In. exact Hg.
Qed.

(** Every loop of a tracker that [New] builds ticks at the default
    interval, whatever intervals the catalog asks for. *)
Section Ticks.

Context (w : World) (conf : Config.t).

Let defaulted (dss : gmap string (list DataSource)) : Prop :=
  forall symbol l ds, dss !! symbol = Some l -> ds ∈ l ->
    runInterval {| cfg := conf; dataSources := ∅ |} ds = Config.Interval conf.

Lemma appendSource_defaulted symbol source dss :
  defaulted dss ->
  runInterval {| cfg := conf; dataSources := ∅ |} source = Config.Interval conf ->
  defaulted (appendSource symbol source dss).
Proof.
  intros Hdss Hsrc sym l ds Hl Hin. unfold appendSource in Hl.
  destruct (decide (symbol = sym)) as [-> | Hne].
  - rewrite lookup_insert_eq in Hl. inversion Hl; subst; clear Hl.
    apply elem_of_app in Hin as [Hin | Hin].
    + destruct (dss !! sym) as [l' |] eqn:E; cbn in Hin.
      * eapply Hdss; eauto.
      * inversion Hin.
    + apply list_elem_of_singleton in Hin. subst. exact Hsrc.
  - rewrite lookup_insert_ne in Hl by exact Hne. eapply Hdss; eauto.
Qed.

Lemma rangeApis_defaulted symbol apis dss dss' :
  defaulted dss ->
  rangeApis w conf symbol apis dss = inl dss' ->
  defaulted dss'.
Proof.
  revert dss. induction apis as [| api apis IH]; intros dss Hdss; cbn.
  - intros H. inversion H; subst. exact Hdss.
  - destruct (createDataSource w conf symbol api) as [source | e] eqn:E;
      [| discriminate].
    apply IH, appendSource_defaulted; [exact Hdss |].
    eapply createDataSource_runInterval, E.
Qed.

Lemma rangeIndexes_defaulted indexes dss dss' :
  defaulted dss ->
  rangeIndexes w conf indexes dss = inl dss' ->
  defaulted dss'.
Proof.
  revert dss. induction indexes as [| [symbol apis] indexes IH]; intros dss Hdss; cbn.
  - intros H. inversion H; subst. exact Hdss.
  - destruct (rangeApis w conf symbol apis dss) as [dss1 | e] eqn:E;
      [| discriminate].
    apply IH. eapply rangeApis_defaulted; eauto.
Qed.

Lemma Run_ticks_at_default self g :
  New w conf = Ok self ->
  g ∈ Run self ->
  tickerPeriod self g = Config.Interval conf.
Proof.
  unfold New, createDataSources.
  destruct (ReadFile w (Config.ApiFile conf)) as [byteValue | e]; [| discriminate].
  destruct (Unmarshal_indexes w byteValue) as [indexes | e]; [| discriminate].
  destruct (rangeIndexes w conf indexes ∅) as [dss | [e |]] eqn:E;
    try discriminate.
  - intros H Hg. inversion H; subst; clear H.
    assert (Hdss : defaulted dss).
    { eapply rangeIndexes_defaulted; [| exact E].
      intros sym l ds Hl. rewrite lookup_empty in Hl. discriminate. }
    unfold Run in Hg. apply list_elem_of_In, in_flat_map in Hg.
    destruct Hg as ([symbol l] & Hsl & Hg).
    apply list_elem_of_In, elem_of_map_to_list in Hsl.
    apply list_elem_of_In in Hg. unfold runSymbol in Hg.
    apply elem_of_cons in Hg as [-> | Hg]; [reflexivity |].
    apply elem_of_lookup_imap in Hg as (i & ds & -> & Hi).
    cbn. eapply Hdss; [exact Hsl |].
    apply list_elem_of_lookup. eauto.
  - intros H Hg. inversion H; subst; clear H.
    unfold Run in Hg. cbn in Hg. rewrite map_to_list_empty in Hg. inversion Hg.
Qed.

End Ticks.

(** C1.  A descriptor asking for a poll every 60 s, under a default of
    30 s: the loader overwrites the non-zero interval with the default, and
    the value loop [Run] starts ticks every 30 s, not every
    [max 60 s 30 s = 60 s]. *)
Theorem slow_descriptor_polls_at_default :
  exists self,
    New (worldWith [("BTC/USD", [slowHttp])]) cfg30 = Ok self /\
    Run self =
      [ go_recordApiCount 1 "BTC/USD";
        go_recordValues 0 "BTC/USD" (30 * time.Second)
          (JSONapi "http://t/" (5 * time.Second) (30 * time.Second)
             (Some {| param := "$.p" |})) ] /\
    Forall (fun g => tickerPeriod self g = Config.Interval cfg30) (Run self) /\
    Z.max (Api.Interval slowHttp) (Config.Interval cfg30) = 60 * time.Second /\
    30 * time.Second <> Z.max (Api.Interval slowHttp) (Config.Interval cfg30).
Proof.
  eexists. split; [vm_compute; reflexivity |].
  split; [vm_compute; reflexivity |].
  split; [| split; vm_compute; congruence].
  vm_compute. repeat constructor.
Qed.



(** The sleeps are nanoseconds: counted in the store's milliseconds, the
    first fetches of a symbol's sources all fall on the start instant. *)
Lemma stagger_within_one_millisecond self symbol (dss : list DataSource) i ds :
  Z.of_nat (length dss) <= 1000000 ->
  dss !! i = Some ds ->
  Z.quot (startupSleep (go_recordValues (Z.of_nat i) symbol (runInterval self ds) ds))
    time.Millisecond = 0.
Proof.
  intros Hlen Hi. apply lookup_lt_Some in Hi. cbn [startupSleep].
  apply Z.quot_small. change time.Millisecond with 1000000. lia.
Qed.

(** ** Unknown parsers. *)

(** C3.  Descriptors naming the parser [Foo]: for an HTTP and for a manual
    descriptor the loader returns no error and a source whose parser is nil
    (its first successful fetch panics); for an on-chain descriptor the loader
    wraps a nil error, so it returns a nil map with a nil error, and [New]
    builds a tracker without any source, also for the symbols already
    loaded. *)
Theorem unknown_parser_is_not_refused :
  createDataSources (worldWith [("X", [httpFoo])]) cfg30 =
    ({[ "X" := [JSONapi "http://t/" (5 * time.Second) 0 None] ]}, None) /\
  Get (worldWith [("X", [httpFoo])]) (JSONapi "http://t/" (5 * time.Second) 0 None)
    = None /\
  createDataSources (worldWith [("X", [manualFoo])]) cfg30 =
    ({[ "X" := [JSONfile None "configs/manualData.json"] ]}, None) /\
  createDataSources (worldWith [("A", [goodHttp]); ("X", [ethereumFoo])]) cfg30 =
    (∅, None) /\
  New (worldWith [("A", [goodHttp]); ("X", [ethereumFoo])]) cfg30 =
    Ok {| cfg := cfg30; dataSources := ∅ |}.
Proof. repeat split; vm_compute; reflexivity. Qed.

(** ** Manual sources. *)

(** C10.  Two manual descriptors that agree on parser and parameter yield
    the same data source, whatever their URLs (and intervals): its [Source] is
    the configured [ManualDataFile], and every [Get] reads that path. *)
Theorem manual_source_ignores_URL (w : World) (conf : Config.t)
  (symbol : string) (a1 a2 : Api.t) :
  Api.Type_ a1 = manualSource ->
  Api.Type_ a2 = manualSource ->
  Api.Parser a1 = Api.Parser a2 ->
  Api.Param a1 = Api.Param a2 ->
  exists parser,
    createDataSource w conf symbol a1 = Built (JSONfile parser (Config.ManualDataFile conf)) /\
    createDataSource w conf symbol a2 = Built (JSONfile parser (Config.ManualDataFile conf)) /\
    Source (JSONfile parser (Config.ManualDataFile conf)) = Config.ManualDataFile conf /\
    forall w' : World,
      Get w' (JSONfile parser (Config.ManualDataFile conf)) =
      match ReadFile w' (Config.ManualDataFile conf) with
      | Err e => Some (zeroValues e)
      | Ok b => callParse w' parser b
      end.
Proof.
  intros H1 H2 Hp Hq.
  rewrite (createDataSource_manual w conf symbol a1 H1).
  rewrite (createDataSource_manual w conf symbol a2 H2).
  rewrite Hp, Hq. eexists. repeat split.
Qed.

Lemma manual_source_ignores_URL_witness :
  exists parser,
    createDataSource (worldWith []) cfg30 "ETH/USD" manualA =
      Built (JSONfile parser (Config.ManualDataFile cfg30)) /\
    createDataSource (worldWith []) cfg30 "ETH/USD" manualB =
      Built (JSONfile parser (Config.ManualDataFile cfg30)) /\
    Source (JSONfile parser (Config.ManualDataFile cfg30)) = Config.ManualDataFile cfg30 /\
    forall w' : World,
      Get w' (JSONfile parser (Config.ManualDataFile cfg30)) =
      match ReadFile w' (Config.ManualDataFile cfg30) with
      | Err e => Some (zeroValues e)
      | Ok b => callParse w' parser b
      end.
Proof.
  apply (manual_source_ignores_URL (worldWith []) cfg30 "ETH/USD" manualA manualB);
    reflexivity.
Defined.

(** ** One pass of the value loop. *)

Section ValuePass.

Context (symbol : string) (dataSource : DataSource) (o : Obs) (st : State).
Context (delay interval : Z).

Let wk (p : pc) : Worker :=
  {| code := go_recordValues delay symbol interval dataSource;
     period := interval; at_ := p |}.


(** C5.  When [Get] succeeds with a non-zero timestamp that the clock has
    passed, the pass changes nothing (no sample, no error count) and ends
    blocked on the ticker. *)
Theorem stale_values_are_dropped vals :
  Get (world o) dataSource = Some vals ->
  err vals = None ->
  time.IsZero (ts vals) = false ->
  time.After (now1 o) (ts vals) = true ->
  recordValuesBody symbol dataSource o st = WaitTick st /\
  stepWorker o (wk InBody) st = Some (wk AwaitTick, st).
Proof.
  intros Hget Herr Hz Hafter.
  assert (Hbody : recordValuesBody symbol dataSource o st = WaitTick st).
  { unfold recordValuesBody. rewrite Hget, Herr, Hz, Hafter. reflexivity. }
  split; [exact Hbody |].
  unfold stepWorker. cbn. rewrite Hbody. reflexivity.
Qed.


End ValuePass.


Lemma stale_values_are_dropped_witness :
  recordValuesBody "ETH/USD" manualSrc
    (obsOf (someValues (time.Unix 1599999700 0)) (Ok "{}") None) initState =
    WaitTick initState /\
  stepWorker (obsOf (someValues (time.Unix 1599999700 0)) (Ok "{}") None)
    {| code := go_recordValues 0 "ETH/USD" (30 * time.Second) manualSrc;
         period := 30 * time.Second; at_ := InBody |}
    initState =
    Some ({| code := go_recordValues 0 "ETH/USD" (30 * time.Second) manualSrc;
             period := 30 * time.Second; at_ := AwaitTick |}, initState).
Proof.
  apply (stale_values_are_dropped "ETH/USD" manualSrc
           (obsOf (someValues (time.Unix 1599999700 0)) (Ok "{}") None) initState
           0 (30 * time.Second) (someValues (time.Unix 1599999700 0)));
    reflexivity.
Defined.



(** ** Cancellation. *)

(** What a pass of either loop can do to the shared state: the signal is
    left alone and the store grows by a batch of at most the loop's size. *)
Lemma body_appends g o st st' :
  body g o st = WaitTick st' ->
  cancelled st' = cancelled st /\
  exists batch,
    tsDB st' = (tsDB st ++ batch)%list /\
    (batch = [] \/
     map timestampMs batch =
       match g with
       | go_recordApiCount _ _ => [timestamp.FromTime (now1 o)]
       | go_recordValues _ _ _ _ =>
           [timestamp.FromTime (now2 o); timestamp.FromTime (now3 o)]
       end).
Proof.
  destruct g as [count symbol | delay symbol interval ds]; cbn.
  - unfold recordApiCountBody, Commit.
    destruct (commitErr o); intros H; inversion H; subst; cbn.
    + split; [reflexivity |]. exists []. rewrite app_nil_r. auto.
    + split; [reflexivity |]. eexists. split; [reflexivity |]. right. reflexivity.
  - unfold recordValuesBody.
    destruct (Get (world o) ds) as [vals |]; [| discriminate].
    destruct (err vals).
    { intros H; inversion H; subst; cbn. split; [reflexivity |].
      exists []. rewrite app_nil_r. auto. }
    destruct (negb (time.IsZero (ts vals)) && time.After (now1 o) (ts vals)).
    { intros H; inversion H; subst. split; [reflexivity |].
      exists []. rewrite app_nil_r. auto. }
    cbv zeta. unfold Commit.
    destruct (commitErr o); intros H; inversion H; subst; cbn.
    + split; [reflexivity |]. exists []. rewrite app_nil_r. auto.
    + split; [reflexivity |]. eexists. split; [reflexivity |]. right. reflexivity.
Qed.

Lemma body_batch_size g d o st st' p :
  body g o st = WaitTick st' ->
  (length (tsDB st) <= length (tsDB st') <=
   length (tsDB st) + inflightOf {| code := g; period := d; at_ := InBody |})%nat /\
  (inflightOf {| code := g; period := d; at_ := p |} <= inflightOf {| code := g; period := d; at_ := InBody |})%nat.
Proof.
  intros H. destruct (body_appends _ _ _ _ H) as (_ & batch & -> & Hb).
  rewrite length_app.
  assert (length batch <= inflightOf {| code := g; period := d; at_ := InBody |})%nat.
  { destruct Hb as [-> | Hb]; [cbn; lia |].
    rewrite <- (length_map timestampMs), Hb. destruct g; cbn; lia. }
  split; [lia |]. destruct g, p; cbn; lia.
Qed.

Lemma list_sum_insert {A} (f : A -> nat) (l : list A) i x y :
  l !! i = Some x ->
  (list_sum (map f (<[i := y]> l)) + f x = list_sum (map f l) + f y)%nat.
Proof.
  revert i. induction l as [| a l IH]; intros [| i] H; try discriminate.
  - inversion H; subst. cbn. lia.
  - specialize (IH i H).
    change (f a + list_sum (map f (<[i:=y]> l)) + f x =
            f a + list_sum (map f l) + f y)%nat.
    lia.
Qed.

(** Replacing goroutine [i] changes the in-flight count by its own share. *)
Lemma inflight_insert s i wk wk' st :
  crashed s = false ->
  workers s !! i = Some wk ->
  (inflight {| state := st; workers := <[i := wk']> (workers s); crashed := false |}
   + inflightOf wk = inflight s + inflightOf wk')%nat.
Proof.
  intros Hc Hi. unfold inflight. cbn. rewrite Hc.
  apply list_sum_insert, Hi.
Qed.

(** One move of a goroutine after the signal: the signal stays, and what
    the move adds to the store is taken from the goroutine's in-flight share. *)
Lemma stepWorker_after_cancel o wk st wk' st' :
  cancelled st = true ->
  stepWorker o wk st = Some (wk', st') ->
  cancelled st' = true /\
  exists batch,
    tsDB st' = (tsDB st ++ batch)%list /\
    (length batch + inflightOf wk' <= inflightOf wk)%nat.
Proof.
  intros Hdone. destruct wk as [g d p]. unfold stepWorker, goto.
  cbn [at_ code period].
  assert (Hidle : forall p', inflightOf {| code := g; period := d; at_ := p |} = 0%nat ->
            inflightOf {| code := g; period := d; at_ := p' |} = 0%nat ->
            Some ({| code := g; period := d; at_ := p' |}, st) = Some (wk', st') ->
            cancelled st' = true /\
            exists batch, tsDB st' = (tsDB st ++ batch)%list /\
              (length batch + inflightOf wk'
               <= inflightOf {| code := g; period := d; at_ := p |})%nat).
  { intros p' Hp Hp' H. inversion H; subst. split; [exact Hdone |].
    exists []. rewrite app_nil_r. split; [reflexivity |]. cbn [length]. lia. }
  destruct p.
  - destruct (d <=? 0); [discriminate |]. apply Hidle; reflexivity.
  - rewrite Hdone. apply Hidle; reflexivity.
  - destruct (body g o st) as [st1 |] eqn:Hb; [| discriminate].
    intros H; inversion H; subst; clear H.
    destruct (body_appends _ _ _ _ Hb) as (Hsame & batch & Hdb & Hbatch).
    split; [congruence |].
    exists batch. split; [exact Hdb |].
    destruct Hbatch as [-> | Hbatch]; [cbn; lia |].
    rewrite <- (length_map timestampMs), Hbatch. destruct g; cbn; lia.
  - apply Hidle; reflexivity.
  - apply Hidle; reflexivity.
Qed.

(** One event after the signal: the signal stays, the store only grows, and
    it grows by no more than the in-flight count shrinks. *)
Lemma step_after_cancel ev s :
  cancelled (state s) = true ->
  cancelled (state (step ev s)) = true /\
  (length (tsDB (state s)) <= length (tsDB (state (step ev s))))%nat /\
  (length (tsDB (state (step ev s))) + inflight (step ev s)
   <= length (tsDB (state s)) + inflight s)%nat.
Proof.
  intros Hdone. unfold step.
  destruct (crashed s) eqn:Hc; [auto with lia |].
  destruct ev as [| i o].
  { cbn. unfold inflight. cbn. rewrite Hc. auto with lia. }
  destruct (workers s !! i) as [wk |] eqn:Hi; [| auto with lia].
  destruct (stepWorker o wk (state s)) as [[wk' st'] |] eqn:Hstep.
  - destruct (stepWorker_after_cancel _ _ _ _ _ Hdone Hstep)
      as (Hdone' & batch & Hdb & Hle).
    pose proof (inflight_insert s i wk wk' st' Hc Hi) as H.
    cbn [state]. rewrite Hdb, length_app.
    split; [exact Hdone' |]. lia.
  - cbn [state]. unfold inflight at 1. cbn [crashed].
    split; [exact Hdone |]. lia.
Qed.

Lemma step_share_after_cancel ev s i wk :
  cancelled (state s) = true ->
  workers s !! i = Some wk ->
  exists wk',
    workers (step ev s) !! i = Some wk' /\
    (length (added i ev s) + inflightOf wk' <= inflightOf wk)%nat.
Proof.
  intros Hdone Hi. unfold added, step.
  destruct (crashed s) eqn:Hc.
  { exists wk. split; [exact Hi |].
    destruct ev as [| j o]; [cbn; lia |].
    destruct (Nat.eqb j i); [rewrite drop_all |]; cbn; lia. }
  destruct ev as [| j o]; [exists wk; split; [exact Hi | cbn; lia] |].
  destruct (workers s !! j) as [wkj |] eqn:Hj.
  2:{ exists wk. split; [exact Hi |].
      destruct (Nat.eqb j i); [rewrite drop_all |]; cbn; lia. }
  destruct (stepWorker o wkj (state s)) as [[wk' st'] |] eqn:Hstep.
  2:{ exists wk. split; [exact Hi |]. cbn [state].
      destruct (Nat.eqb j i); [rewrite drop_all |]; cbn; lia. }
  cbn [state workers].
  destruct (Nat.eqb_spec j i) as [-> | Hne].
  - rewrite Hi in Hj. inversion Hj; subst wkj; clear Hj.
    destruct (stepWorker_after_cancel _ _ _ _ _ Hdone Hstep) as (_ & batch & -> & Hle).
    exists wk'. split.
    + apply list_lookup_insert_eq. eapply lookup_lt_Some, Hi.
    + rewrite drop_app_length. exact Hle.
  - exists wk. split; [| cbn; lia].
    rewrite list_lookup_insert_ne by exact Hne. exact Hi.
Qed.

(** After the signal a goroutine adds no more than its in-flight share. *)
Lemma writes_after_cancel evs s i wk :
  cancelled (state s) = true ->
  workers s !! i = Some wk ->
  (length (writes i evs s) <= inflightOf wk)%nat.
Proof.
  revert s wk. induction evs as [| ev evs IH]; intros s wk Hdone Hi;
    [cbn; lia |].
  destruct (step_share_after_cancel ev s i wk Hdone Hi) as (wk' & Hi' & Hle).
  destruct (step_after_cancel ev s Hdone) as (Hdone' & _).
  specialize (IH (step ev s) wk' Hdone' Hi').
  cbn [writes]. rewrite length_app. lia.
Qed.

(** From the signal on, the store grows by no more than the in-flight
    count shrinks. *)
Lemma run_after_cancel evs s :
  cancelled (state s) = true ->
  cancelled (state (run evs s)) = true /\
  (length (tsDB (state s)) <= length (tsDB (state (run evs s))))%nat /\
  (length (tsDB (state (run evs s))) + inflight (run evs s)
   <= length (tsDB (state s)) + inflight s)%nat.
Proof.
  revert s. induction evs as [| ev evs IH]; intros s Hdone.
  - cbn. auto with lia.
  - destruct (step_after_cancel ev s Hdone) as (Hdone' & Hlo & Hhi).
    destruct (IH (step ev s) Hdone') as (Hdone'' & Hlo' & Hhi').
    cbn. split; [exact Hdone'' |].
    unfold run in *. lia.
Qed.

(** C7 as stated fails: the value loop of a manual source passes its
    [select] before the signal trips, and its pass then adds two samples to a
    store that held none at the instant of cancellation. *)
Lemma pass_in_flight_appends_after_cancel :
  cancelledInFlight =
    run [Step 1 (obsAt 1600000000); Step 1 (obsAt 1600000030); Cancel]
      (start oneManual) /\
  cancelled (state cancelledInFlight) = true /\
  length (tsDB (state cancelledInFlight)) = 0%nat /\
  length (tsDB (state (run [Step 1 (obsAt 1600000060)] cancelledInFlight))) = 2%nat.
Proof. repeat split; vm_compute; reflexivity. Qed.

(** C7, amended.  From any state in which the signal has tripped, along
    any further events: a goroutine that is not inside a pass adds nothing
    more to the store, and one caught inside a pass adds at most the samples
    of that pass (two for a value loop, one for the api-count loop); so the
    store grows by at most the in-flight count, and with no pass in flight the
    sample count does not change. *)
Theorem store_growth_after_cancel evs s :
  cancelled (state s) = true ->
  (forall i wk, workers s !! i = Some wk ->
     (length (writes i evs s) <= inflightOf wk)%nat) /\
  (length (tsDB (state s)) <= length (tsDB (state (run evs s))))%nat /\
  (length (tsDB (state (run evs s))) + inflight (run evs s)
   <= length (tsDB (state s)) + inflight s)%nat.
Proof.
  intros Hdone. split.
  - intros i wk Hi. apply writes_after_cancel; assumption.
  - apply run_after_cancel, Hdone.
Qed.

(** A goroutine at its [select] after the signal returns without a write,
    and a returned goroutine stays so. *)
Lemma select_after_cancel_exits o g d st :
  cancelled st = true ->
  stepWorker o {| code := g; period := d; at_ := Selecting |} st =
    Some ({| code := g; period := d; at_ := Exited |}, st) /\
  stepWorker o {| code := g; period := d; at_ := Exited |} st =
    Some ({| code := g; period := d; at_ := Exited |}, st).
Proof. intros H. unfold stepWorker. cbn. rewrite H. split; reflexivity. Qed.

Lemma store_growth_after_cancel_witness :
  (forall i wk, workers cancelledInFlight !! i = Some wk ->
     (length (writes i drainEvents cancelledInFlight) <= inflightOf wk)%nat) /\
  (length (tsDB (state cancelledInFlight)) <=
   length (tsDB (state (run drainEvents cancelledInFlight))))%nat /\
  (length (tsDB (state (run drainEvents cancelledInFlight)))
   + inflight (run drainEvents cancelledInFlight)
   <= length (tsDB (state cancelledInFlight)) + inflight cancelledInFlight)%nat.
Proof.
  apply (store_growth_after_cancel drainEvents cancelledInFlight).
  reflexivity.
Defined.

(** In that run the value loop adds its two samples and returns at its
    next [select]; the api-count loop returns without a write. *)
Example cancelled_in_flight_run :
  length (tsDB (state cancelledInFlight)) = 0%nat /\
  inflight cancelledInFlight = 2%nat /\
  length (tsDB (state (run drainEvents cancelledInFlight))) = 2%nat /\
  map at_ (workers (run drainEvents cancelledInFlight))
    = [Exited; Exited].
Proof. repeat split; vm_compute; reflexivity. Qed.

(** ** Timestamps. *)

Lemma wrap64_small z : - 2 ^ 63 <= z < 2 ^ 63 -> wrap64 z = z.
Proof.
  intros H. unfold wrap64. rewrite Z.mod_small; lia.
Qed.










(** The run of the witness: two passes of the value loop, four samples. *)
Example writes_of_two_passes :
  map timestampMs (writes 1 twoPasses (start oneManual)) =
  [1600000060002; 1600000060003; 1600000150002; 1600000150003].
Proof. vm_compute. reflexivity. Qed.

(** Scenario S3 of the specification: a stale manual value writes nothing,
    and the next pass with a zero timestamp writes the two samples. *)
Example stale_then_fresh :
  map timestampMs
    (tsDB (state (run [ Step 1 (obsAt 1600000000); Step 1 (obsAt 1600000000);
                        Step 1 (obsOf (someValues (time.Unix 1599999700 0)) (Ok "{}") None);
                        Step 1 (obsAt 1600000030); Step 1 (obsAt 1600000030);
                        Step 1 (obsAt 1600000030) ]
                    (start oneManual)))) =
  [1600000030002; 1600000030003].
Proof. vm_compute. reflexivity. Qed.

(** * Further properties of the tracker's goroutines *)

(** ** What one pass can do. *)

(** A pass of the api-count loop commits its one sample or changes
    nothing; a pass of the value loop changes nothing, or counts one error for
    its source, or commits its two samples and sets the two gauges of its
    source to the committed values. *)
Lemma body_cases g o st st' :
  body g o st = WaitTick st' ->
  st' = st \/
  match g with
  | go_recordApiCount count symbol =>
      commitErr o = None /\
      st' = Commit None (countSamples count symbol o) st
  | go_recordValues _ symbol _ ds =>
      (exists vals e, Get (world o) ds = Some vals /\ err vals = Some e /\
                      st' = incGetErrors (Source ds) st) \/
      (exists vals, Get (world o) ds = Some vals /\ err vals = None /\
                    commitErr o = None /\
                    st' = setGauges (Source ds) (price vals) (volume vals)
                            (Commit None
                               (valueSamples symbol ds o (price vals) (volume vals))
                               st))
  end.
Proof.
  destruct g as [count symbol | delay symbol interval ds]; cbn.
  - unfold recordApiCountBody.
    destruct (commitErr o) eqn:Hc; intros H; inversion H; subst; cbn; auto.
  - unfold recordValuesBody.
    destruct (Get (world o) ds) as [vals |]; [| discriminate].
    destruct (err vals) as [e |] eqn:He.
    { intros H; inversion H; subst. right. left. eauto. }
    destruct (negb (time.IsZero (ts vals)) && time.After (now1 o) (ts vals)).
    { intros H; inversion H; subst. auto. }
    cbv zeta.
    destruct (commitErr o) eqn:Hc; intros H; inversion H; subst; cbn; auto.
    right. right. eauto.
Qed.

(** What a move of a goroutine keeps: its code and period, the signal, the
    store as a prefix, and every error count as a lower bound. *)
Lemma stepWorker_keeps o wk st wk' st' :
  stepWorker o wk st = Some (wk', st') ->
  code wk' = code wk /\ period wk' = period wk /\
  cancelled st' = cancelled st /\
  tsDB st `prefix_of` tsDB st' /\
  forall source,
    default 0 (getErrors st !! source) <= default 0 (getErrors st' !! source).
Proof.
  assert (Hsame : forall (w1 : Worker) (s1 : State),
             code w1 = code wk -> period w1 = period wk ->
             Some (w1, st) = Some (wk', st') ->
             code wk' = code wk /\ period wk' = period wk /\
             cancelled st' = cancelled st /\
             tsDB st `prefix_of` tsDB st' /\
             forall source,
               default 0 (getErrors st !! source)
               <= default 0 (getErrors st' !! source)).
  { intros w1 _ Hc Hp H. inversion H; subst. repeat split; auto. lia. }
  unfold stepWorker, goto. destruct (at_ wk).
  - destruct (period wk <=? 0); [discriminate |]. apply (Hsame _ st); reflexivity.
  - destruct (cancelled st); apply (Hsame _ st); reflexivity.
  - destruct (body (code wk) o st) as [st1 |] eqn:Hb; [| discriminate].
    intros H; inversion H; subst; clear H. cbn [code period].
    split; [reflexivity |]. split; [reflexivity |].
    destruct (body_appends _ _ _ _ Hb) as (Hsig & batch & Hdb & _).
    split; [exact Hsig |]. split; [rewrite Hdb; apply prefix_app_r; reflexivity |].
    intros source. apply body_cases in Hb.
    destruct Hb as [-> | Hb]; [lia |].
    destruct (code wk) as [count symbol | delay symbol interval ds].
    + destruct Hb as (_ & ->). cbn. lia.
    + destruct Hb as [(vals & e & _ & _ & ->) | (vals & _ & _ & _ & ->)]; cbn; [| lia].
      destruct (decide (Source ds = source)) as [-> | Hne].
      * rewrite lookup_insert_eq. cbn. lia.
      * rewrite lookup_insert_ne by exact Hne. lia.
  - apply (Hsame _ st); reflexivity.
  - apply (Hsame _ st); reflexivity.
Qed.

(** ** What every run keeps. *)

Lemma step_keeps ev s :
  map code (workers (step ev s)) = map code (workers s) /\
  map period (workers (step ev s)) = map period (workers s) /\
  tsDB (state s) `prefix_of` tsDB (state (step ev s)) /\
  (forall source,
     default 0 (getErrors (state s) !! source)
     <= default 0 (getErrors (state (step ev s)) !! source)) /\
  (cancelled (state s) = true -> cancelled (state (step ev s)) = true) /\
  (cancelled (state (step ev s)) = true ->
   cancelled (state s) = true \/ ev = Cancel).
Proof.
  assert (Hrefl : map code (workers s) = map code (workers s) /\
                  map period (workers s) = map period (workers s) /\
                  tsDB (state s) `prefix_of` tsDB (state s) /\
                  (forall source,
                     default 0 (getErrors (state s) !! source)
                     <= default 0 (getErrors (state s) !! source)) /\
                  (cancelled (state s) = true -> cancelled (state s) = true) /\
                  (cancelled (state s) = true ->
                   cancelled (state s) = true \/ ev = Cancel)).
  { repeat split; auto. lia. }
  unfold step. destruct (crashed s); [exact Hrefl |].
  destruct ev as [| i o].
  { cbn. repeat split; auto. lia. }
  destruct (workers s !! i) as [wk |] eqn:Hi; [| exact Hrefl].
  destruct (stepWorker o wk (state s)) as [[wk' st'] |] eqn:Hstep; [| exact Hrefl].
  destruct (stepWorker_keeps _ _ _ _ _ Hstep) as (Hcode & Hperiod & Hsig & Hpre & Herr).
  cbn [state workers].
  split.
  { change (code <$> <[i:=wk']> (workers s) = code <$> workers s).
    rewrite list_fmap_insert, Hcode. apply list_insert_id.
    rewrite list_lookup_fmap, Hi. reflexivity. }
  split.
  { change (period <$> <[i:=wk']> (workers s) = period <$> workers s).
    rewrite list_fmap_insert, Hperiod. apply list_insert_id.
    rewrite list_lookup_fmap, Hi. reflexivity. }
  split; [exact Hpre |]. split; [exact Herr |].
  rewrite Hsig. auto.
Qed.

Lemma run_cons ev evs s : run (ev :: evs) s = run evs (step ev s).
Proof. reflexivity. Qed.

Lemma run_keeps evs s :
  map code (workers (run evs s)) = map code (workers s) /\
  map period (workers (run evs s)) = map period (workers s) /\
  tsDB (state s) `prefix_of` tsDB (state (run evs s)) /\
  (forall source,
     default 0 (getErrors (state s) !! source)
     <= default 0 (getErrors (state (run evs s)) !! source)) /\
  (cancelled (state s) = true -> cancelled (state (run evs s)) = true) /\
  (cancelled (state (run evs s)) = true ->
   cancelled (state s) = true \/ Cancel ∈ evs).
Proof.
  revert s. induction evs as [| ev evs IH]; intros s.
  { cbn. repeat split; auto. lia. }
  rewrite run_cons.
  destruct (IH (step ev s)) as (Hc & Hp & Hpre & Herr & Hfwd & Hback).
  destruct (step_keeps ev s) as (Hc1 & Hp1 & Hpre1 & Herr1 & Hfwd1 & Hback1).
  split; [congruence |]. split; [congruence |].
  split; [etransitivity; eassumption |].
  split; [intros source; etransitivity; [apply Herr1 | apply Herr] |].
  split; [auto |].
  intros H. destruct (Hback H) as [H1 | H1].
  - destruct (Hback1 H1) as [H2 | ->]; [auto |].
    right. apply elem_of_cons. auto.
  - right. apply elem_of_cons. auto.
Qed.

(** The store is append-only: whatever the goroutines and the signal do,
    the samples committed so far stay, in their order, at the front of the
    store. *)
Theorem store_is_append_only evs s :
  tsDB (state s) `prefix_of` tsDB (state (run evs s)).
Proof. apply run_keeps. Qed.

(** The error count of every source only grows along a run. *)
Theorem error_counts_never_decrease evs s source :
  default 0 (getErrors (state s) !! source)
  <= default 0 (getErrors (state (run evs s)) !! source).
Proof. apply run_keeps. Qed.

(** The goroutines of a process are those [Run] started, each with the
    arguments and the ticker period it was started with: in particular the
    count an api-count loop writes and the source and symbol of a value loop
    never change. *)
Theorem goroutines_are_fixed evs self :
  map code (workers (run evs (start self))) = Run self /\
  map period (workers (run evs (start self))) = map (tickerPeriod self) (Run self).
Proof.
  destruct (run_keeps evs (start self)) as (-> & -> & _).
  unfold start. cbn [workers]. rewrite !map_map. cbn.
  split; [apply map_id | reflexivity].
Qed.

(** No goroutine trips the signal: it is set after a run only if it was set
    before or the run holds a [Cancel]; and once set it stays set. *)
Theorem only_Cancel_trips_the_signal evs s :
  (cancelled (state (run evs s)) = true ->
   cancelled (state s) = true \/ Cancel ∈ evs) /\
  (cancelled (state s) = true -> cancelled (state (run evs s)) = true).
Proof. split; apply run_keeps. Qed.

(** ** When a loop returns. *)

Lemma run_crashed evs s : crashed s = true -> run evs s = s.
Proof.
  intros H. induction evs as [| ev evs IH]; [reflexivity |].
  rewrite run_cons. unfold step. rewrite H. exact IH.
Qed.

(** How the process moves when goroutine [i] is let run: it panics, or the
    goroutine and the shared state are replaced by what its move yields. *)
Lemma step_self i o s wk :
  crashed s = false ->
  workers s !! i = Some wk ->
  (stepWorker o wk (state s) = None /\ crashed (step (Step i o) s) = true) \/
  (exists wk' st',
     stepWorker o wk (state s) = Some (wk', st') /\
     step (Step i o) s =
       {| state := st'; workers := <[i := wk']> (workers s); crashed := false |} /\
     workers (step (Step i o) s) !! i = Some wk').
Proof.
  intros Hc Hi. unfold step. rewrite Hc, Hi.
  destruct (stepWorker o wk (state s)) as [[wk' st'] |]; [right | left; auto].
  exists wk', st'. repeat split. cbn.
  apply list_lookup_insert_eq. eapply lookup_lt_Some, Hi.
Qed.

(** The moves of the others leave a goroutine where it stands. *)
Lemma step_other ev s i wk :
  workers s !! i = Some wk ->
  (forall o, ev <> Step i o) ->
  workers (step ev s) !! i = Some wk.
Proof.
  intros Hi Hne. unfold step. destruct (crashed s); [exact Hi |].
  destruct ev as [| j o]; [exact Hi |].
  destruct (workers s !! j) as [wkj |] eqn:Hj; [| exact Hi].
  destruct (stepWorker o wkj (state s)) as [[wk' st'] |]; [| exact Hi].
  cbn. rewrite list_lookup_insert_ne; [exact Hi |].
  intros ->. apply (Hne o). reflexivity.
Qed.

Lemma stepWorker_exits o wk st wk' st' :
  stepWorker o wk st = Some (wk', st') ->
  (at_ wk' = Exited -> cancelled st' = true \/ at_ wk = Exited) /\
  (cancelled st = true -> (movesLeft (at_ wk') <= movesLeft (at_ wk) - 1)%nat).
Proof.
  unfold stepWorker, goto. destruct (at_ wk) eqn:Hat.
  - destruct (period wk <=? 0); [discriminate |].
    intros H; inversion H; subst; cbn. split; [discriminate | lia].
  - destruct (cancelled st) eqn:Hc; intros H; inversion H; subst; cbn.
    + split; [auto | lia].
    + split; [discriminate | intros; discriminate].
  - destruct (body (code wk) o st); [| discriminate].
    intros H; inversion H; subst; cbn. split; [discriminate | lia].
  - intros H; inversion H; subst; cbn. split; [discriminate | lia].
  - intros H; inversion H; subst. rewrite Hat. cbn. split; [auto | lia].
Qed.

Lemma run_exited evs s :
  (forall i wk, workers s !! i = Some wk -> at_ wk = Exited ->
                cancelled (state s) = true) ->
  forall i wk, workers (run evs s) !! i = Some wk -> at_ wk = Exited ->
               cancelled (state (run evs s)) = true.
Proof.
  revert s. induction evs as [| ev evs IH]; intros s Hinv; [exact Hinv |].
  rewrite run_cons. apply IH. clear IH evs.
  intros i wk Hi Hex.
  destruct (step_keeps ev s) as (_ & _ & _ & _ & Hkeep & _).
  unfold step in *. destruct (crashed s) eqn:Hc; [eauto |].
  destruct ev as [| j o]; [reflexivity |].
  destruct (workers s !! j) as [wkj |] eqn:Hj; [| eauto].
  destruct (stepWorker o wkj (state s)) as [[wk' st'] |] eqn:Hstep; [| eauto].
  cbn [state workers] in *.
  destruct (stepWorker_keeps _ _ _ _ _ Hstep) as (_ & _ & Hsig & _).
  destruct (decide (j = i)) as [-> | Hne].
  - rewrite list_lookup_insert_eq in Hi by (eapply lookup_lt_Some, Hj).
    inversion Hi; subst wk'.
    destruct (stepWorker_exits _ _ _ _ _ Hstep) as (Hexit & _).
    destruct (Hexit Hex) as [H | H]; [exact H |].
    rewrite Hsig. eauto.
  - rewrite list_lookup_insert_ne in Hi by exact Hne.
    rewrite Hsig. eauto.
Qed.

(** A loop returns only on the signal: in a process started by [Run], a
    goroutine that has returned tells that a [Cancel] came before. *)
Theorem loops_return_only_after_Cancel self evs i wk :
  workers (run evs (start self)) !! i = Some wk ->
  at_ wk = Exited ->
  Cancel ∈ evs.
Proof.
  intros Hi Hex.
  assert (Hsig : cancelled (state (run evs (start self))) = true).
  { eapply run_exited; [| exact Hi | exact Hex].
    intros j wkj Hj Hexj. unfold start in Hj. cbn in Hj.
    change (map (spawn self) (Run self)) with (spawn self <$> Run self) in Hj.
    rewrite list_lookup_fmap in Hj.
    apply fmap_Some in Hj as (g & _ & ->). discriminate. }
  destruct (run_keeps evs (start self)) as (_ & _ & _ & _ & _ & Hback).
  destruct (Hback Hsig) as [H | H]; [discriminate | exact H].
Qed.

Lemma run_movesLeft evs s i wk :
  cancelled (state s) = true ->
  workers s !! i = Some wk ->
  crashed (run evs s) = true \/
  exists wk', workers (run evs s) !! i = Some wk' /\
              (movesLeft (at_ wk') <= movesLeft (at_ wk) - moves i evs)%nat.
Proof.
  revert s wk. induction evs as [| ev evs IH]; intros s wk Hsig Hi.
  { right. exists wk. split; [exact Hi | cbn; lia]. }
  rewrite run_cons.
  destruct (step_keeps ev s) as (_ & _ & _ & _ & Hkeep & _).
  specialize (Hkeep Hsig).
  destruct (crashed s) eqn:Hc.
  { left. replace (step ev s) with s by (unfold step; rewrite Hc; reflexivity).
    rewrite run_crashed; assumption. }
  destruct ev as [| j o].
  { destruct (IH _ wk Hkeep (step_other Cancel s i wk Hi ltac:(discriminate)))
      as [H | (wk' & Hi' & Hle)]; [auto |].
    right. exists wk'. split; [exact Hi' |]. exact Hle. }
  destruct (Nat.eqb_spec j i) as [-> | Hne].
  - destruct (step_self i o s wk Hc Hi) as [(_ & Hcr) | (wk1 & st1 & Hstep & _ & Hi1)].
    + left. rewrite run_crashed; assumption.
    + destruct (stepWorker_exits _ _ _ _ _ Hstep) as (_ & Hless).
      specialize (Hless Hsig).
      destruct (IH _ wk1 Hkeep Hi1) as [H | (wk' & Hi' & Hle)]; [auto |].
      right. exists wk'. split; [exact Hi' |].
      unfold moves in *. cbn [List.filter]. rewrite Nat.eqb_refl. cbn [length]. lia.
  - assert (Hi1 : workers (step (Step j o) s) !! i = Some wk).
    { apply step_other; [exact Hi |]. intros o' H. inversion H. congruence. }
    destruct (IH _ wk Hkeep Hi1) as [H | (wk' & Hi' & Hle)]; [auto |].
    right. exists wk'. split; [exact Hi' |].
    unfold moves in *. cbn [List.filter].
    destruct (Nat.eqb_spec j i); [contradiction |]. exact Hle.
Qed.

(** Once the signal is set, a goroutine returns within three moves of its
    own, whatever the others do in between, unless the process panics. *)
Theorem loop_returns_within_three_moves evs s i wk :
  cancelled (state s) = true ->
  workers s !! i = Some wk ->
  (3 <= moves i evs)%nat ->
  crashed (run evs s) = true \/
  exists wk', workers (run evs s) !! i = Some wk' /\ at_ wk' = Exited.
Proof.
  intros Hsig Hi Hmoves.
  destruct (run_movesLeft evs s i wk Hsig Hi) as [H | (wk' & Hi' & Hle)]; [auto |].
  right. exists wk'. split; [exact Hi' |].
  destruct (at_ wk'), (at_ wk); cbn in Hle; try reflexivity; lia.
Qed.

Lemma loops_return_only_after_Cancel_witness : Cancel ∈ cancelledRun.
Proof.
  apply (loops_return_only_after_Cancel oneManual cancelledRun 0
           {| code := go_recordApiCount 1 "ETH/USD";
              period := 30 * time.Second; at_ := Exited |});
    reflexivity.
Defined.

Lemma loop_returns_within_three_moves_witness :
  crashed (run drainEvents cancelledInFlight) = true \/
  exists wk', workers (run drainEvents cancelledInFlight) !! 1%nat = Some wk' /\
              at_ wk' = Exited.
Proof.
  apply (loop_returns_within_three_moves drainEvents cancelledInFlight 1
           {| code := go_recordValues 0 "ETH/USD" (30 * time.Second) manualSrc;
              period := 30 * time.Second; at_ := InBody |});
    [reflexivity | reflexivity | vm_compute; lia].
Defined.

(** ** A default interval that is not positive. *)

(** With a default interval of zero or less, every goroutine of a tracker
    that [New] built panics on its first move, when it opens its ticker. *)
Theorem non_positive_interval_panics w conf self i wk o :
  New w conf = Ok self ->
  Config.Interval conf <= 0 ->
  workers (start self) !! i = Some wk ->
  crashed (step (Step i o) (start self)) = true.
Proof.
  intros Hnew Hle Hi.
  assert (Hwk : at_ wk = Starting /\ period wk = Config.Interval conf).
  { unfold start in Hi. cbn in Hi.
    change (map (spawn self) (Run self)) with (spawn self <$> Run self) in Hi.
    rewrite list_lookup_fmap in Hi.
    apply fmap_Some in Hi as (g & Hg & ->). cbn. split; [reflexivity |].
    eapply Run_ticks_at_default; [exact Hnew |].
    apply list_elem_of_lookup. eauto. }
  destruct Hwk as (Hat & Hp).
  destruct (step_self i o (start self) wk eq_refl Hi)
    as [(_ & Hcr) | (wk' & st' & Hstep & _)]; [exact Hcr |].
  unfold stepWorker in Hstep. rewrite Hat, Hp in Hstep.
  destruct (Z.leb_spec (Config.Interval conf) 0); [discriminate | lia].
Qed.

Lemma non_positive_interval_panics_witness :
  crashed (step (Step 0 (obsAt 1600000000))
             (start {| cfg := cfg0;
                       dataSources :=
                         {[ "BTC/USD" := [JSONapi "http://t/" (5 * time.Second) 0
                                            (Some {| param := "$.p" |})] ]} |}))
  = true.
Proof.
  apply (non_positive_interval_panics (worldWith [("BTC/USD", [goodHttp])]) cfg0
           {| cfg := cfg0;
              dataSources :=
                {[ "BTC/USD" := [JSONapi "http://t/" (5 * time.Second) 0
                                   (Some {| param := "$.p" |})] ]} |}
           0 {| code := go_recordApiCount 1 "BTC/USD"; period := 0; at_ := Starting |}
           (obsAt 1600000000));
    [vm_compute; reflexivity | vm_compute; congruence | vm_compute; reflexivity].
Defined.

(** ** What the samples of a goroutine look like. *)







(** ** The gauges. *)




(** * Further properties of the catalog loader *)

(** ** The goroutines of [Run]. *)


(** ** Defaults. *)

(** A descriptor without a type loads as an [http] descriptor, and one
    without a parser as a [jsonPath] one. *)
Theorem empty_type_and_parser_default w conf symbol api :
  createDataSource w conf symbol (Api.withType api "") =
  createDataSource w conf symbol (Api.withType api httpSource) /\
  createDataSource w conf symbol (Api.withParser api "") =
  createDataSource w conf symbol (Api.withParser api jsonPathParser).
Proof.
  split; unfold createDataSource; cbv zeta;
    rewrite !applyDefaults_eq; destruct api as [url ty p prm iv];
    reflexivity.
Qed.

(** ** Unknown types. *)

Lemma createDataSource_unknown w conf symbol api :
  ~ knownType api ->
  createDataSource w conf symbol api =
  Return (errors_New "unknown index type for index object").
Proof.
  intros Hk. unfold createDataSource. cbv zeta. rewrite applyDefaults_eq. cbn.
  unfold knownType, plain in Hk.
  destruct (String.eqb_spec (Api.Type_ api) ""); [tauto |].
  destruct (String.eqb_spec (Api.Type_ api) httpSource); [tauto |].
  destruct (String.eqb_spec (Api.Type_ api) manualSource); [tauto |].
  destruct (String.eqb_spec (Api.Type_ api) ethereumSource); [tauto |].
  reflexivity.
Qed.

(** Without the chain client the only refusal is that of an unknown type. *)
Lemma createDataSource_off_chain w conf symbol api e :
  Api.Type_ api <> ethereumSource ->
  createDataSource w conf symbol api = Return e ->
  e = Some "unknown index type for index object".
Proof.
  intros Hne. unfold createDataSource. cbv zeta. rewrite applyDefaults_eq. cbn.
  destruct (String.eqb_spec (Api.Type_ api) ""); cbn; [discriminate |].
  destruct (String.eqb_spec (Api.Type_ api) httpSource); [discriminate |].
  destruct (String.eqb_spec (Api.Type_ api) manualSource); [discriminate |].
  destruct (String.eqb_spec (Api.Type_ api) ethereumSource); [contradiction |].
  intros H. inversion H. reflexivity.
Qed.

Lemma rangeApis_returns w conf symbol apis api e0 :
  api ∈ apis ->
  createDataSource w conf symbol api = Return e0 ->
  forall dss, exists e, rangeApis w conf symbol apis dss = inr e.
Proof.
  induction apis as [| a apis IH]; intros Hin Hret dss; [inversion Hin |].
  cbn. destruct (createDataSource w conf symbol a) as [src | e] eqn:Ha; [| eauto].
  apply elem_of_cons in Hin as [-> | Hin]; [congruence |].
  apply IH; assumption.
Qed.

Lemma rangeIndexes_returns w conf indexes symbol apis :
  (symbol, apis) ∈ indexes ->
  (forall dss, exists e, rangeApis w conf symbol apis dss = inr e) ->
  forall dss, exists e, rangeIndexes w conf indexes dss = inr e.
Proof.
  induction indexes as [| [s l] indexes IH]; intros Hin Hret dss; [inversion Hin |].
  cbn. destruct (rangeApis w conf s l dss) as [dss1 | e] eqn:Hl; [| eauto].
  apply elem_of_cons in Hin as [Heq | Hin].
  - inversion Heq; subst. destruct (Hret dss) as (e & He). congruence.
  - apply IH; assumption.
Qed.

Lemma rangeApis_off_chain w conf symbol apis dss e :
  (forall a, a ∈ apis -> Api.Type_ a <> ethereumSource) ->
  rangeApis w conf symbol apis dss = inr e ->
  e = Some "unknown index type for index object".
Proof.
  revert dss. induction apis as [| a apis IH]; intros dss Hoff; cbn; [discriminate |].
  destruct (createDataSource w conf symbol a) as [src | e1] eqn:Ha.
  - apply IH. intros b Hb. apply Hoff, elem_of_cons. auto.
  - intros H. inversion H; subst.
    eapply createDataSource_off_chain; [| exact Ha]. apply Hoff, elem_of_cons. auto.
Qed.

Lemma rangeIndexes_off_chain w conf indexes dss e :
  (forall s l a, (s, l) ∈ indexes -> a ∈ l -> Api.Type_ a <> ethereumSource) ->
  rangeIndexes w conf indexes dss = inr e ->
  e = Some "unknown index type for index object".
Proof.
  revert dss. induction indexes as [| [s l] indexes IH]; intros dss Hoff; cbn;
    [discriminate |].
  destruct (rangeApis w conf s l dss) as [dss1 | e1] eqn:Hl.
  - apply IH. intros s' l' a Hin Ha.
    eapply Hoff; [apply elem_of_cons; right; exact Hin | exact Ha].
  - intros H. inversion H; subst.
    eapply rangeApis_off_chain; [| exact Hl].
    intros a Ha. eapply Hoff; [| exact Ha]. apply elem_of_cons. auto.
Qed.

(** A catalog that holds a descriptor of an unknown type never yields a
    source: the loader returns a nil map, so [New] fails or builds a tracker
    without sources. *)
Theorem unknown_type_loads_nothing w conf byteValue indexes symbol apis api :
  ReadFile w (Config.ApiFile conf) = Ok byteValue ->
  Unmarshal_indexes w byteValue = Ok indexes ->
  (symbol, apis) ∈ indexes ->
  api ∈ apis ->
  ~ knownType api ->
  (exists e, createDataSources w conf = (∅, e)) /\
  (New w conf = Ok {| cfg := conf; dataSources := ∅ |} \/
   exists e, New w conf = Err e).
Proof.
  intros Hread Hjson Hin Hapi Hk.
  assert (Hret : exists e, rangeIndexes w conf indexes ∅ = inr e).
  { eapply rangeIndexes_returns; [exact Hin |].
    eapply rangeApis_returns; [exact Hapi |].
    apply createDataSource_unknown, Hk. }
  destruct Hret as (e & Hret).
  assert (Hcreate : createDataSources w conf = (∅, e)).
  { unfold createDataSources. rewrite Hread, Hjson, Hret. reflexivity. }
  split; [eauto |].
  unfold New. rewrite Hcreate. destruct e; eauto.
Qed.

Lemma unknown_type_loads_nothing_witness :
  (exists e, createDataSources (worldWith [("A", [goodHttp]); ("X", [ethereumFoo; ftpApi])])
               cfg30 = (∅, e)) /\
  (New (worldWith [("A", [goodHttp]); ("X", [ethereumFoo; ftpApi])]) cfg30
   = Ok {| cfg := cfg30; dataSources := ∅ |} \/
   exists e, New (worldWith [("A", [goodHttp]); ("X", [ethereumFoo; ftpApi])]) cfg30
             = Err e).
Proof.
  apply (unknown_type_loads_nothing
           (worldWith [("A", [goodHttp]); ("X", [ethereumFoo; ftpApi])]) cfg30 "{}"
           [("A", [goodHttp]); ("X", [ethereumFoo; ftpApi])] "X"
           [ethereumFoo; ftpApi] ftpApi).
  - reflexivity.
  - reflexivity.
  - right. left.
  - right. left.
  - unfold knownType, plain. vm_compute. intuition discriminate.
Defined.

(** When no descriptor of the catalog needs the chain client, a descriptor
    of an unknown type makes [New] fail with the unknown-type error. *)
Theorem unknown_type_is_refused_off_chain w conf byteValue indexes symbol apis api :
  ReadFile w (Config.ApiFile conf) = Ok byteValue ->
  Unmarshal_indexes w byteValue = Ok indexes ->
  (forall s l a, (s, l) ∈ indexes -> a ∈ l -> Api.Type_ a <> ethereumSource) ->
  (symbol, apis) ∈ indexes ->
  api ∈ apis ->
  ~ knownType api ->
  New w conf = Err "create data sources: unknown index type for index object".
Proof.
  intros Hread Hjson Hoff Hin Hapi Hk.
  assert (Hret : exists e, rangeIndexes w conf indexes ∅ = inr e).
  { eapply rangeIndexes_returns; [exact Hin |].
    eapply rangeApis_returns; [exact Hapi |].
    apply createDataSource_unknown, Hk. }
  destruct Hret as (e & Hret).
  unfold New, createDataSources. rewrite Hread, Hjson, Hret.
  rewrite (rangeIndexes_off_chain _ _ _ _ _ Hoff Hret). reflexivity.
Qed.

Lemma unknown_type_is_refused_off_chain_witness :
  New (worldWith [("A", [goodHttp]); ("X", [goodHttp; ftpApi])]) cfg30 =
  Err "create data sources: unknown index type for index object".
Proof.
  apply (unknown_type_is_refused_off_chain
           (worldWith [("A", [goodHttp]); ("X", [goodHttp; ftpApi])]) cfg30 "{}"
           [("A", [goodHttp]); ("X", [goodHttp; ftpApi])] "X" [goodHttp; ftpApi] ftpApi).
  - reflexivity.
  - reflexivity.
  - intros s l a Hs Ha.
    repeat (apply elem_of_cons in Hs as [Hs | Hs];
            [inversion Hs; subst;
             repeat (apply elem_of_cons in Ha as [-> | Ha]; [discriminate |]);
             inversion Ha |]).
    inversion Hs.
  - right. left.
  - right. left.
  - unfold knownType, plain. vm_compute. intuition discriminate.
Defined.

(** ** Catalogs that need no chain client. *)

Lemma rangeApis_plain w conf symbol apis dss :
  Forall plain apis ->
  exists sources,
    Forall2 (fun api source => createDataSource w conf symbol api = Built source)
      apis sources /\
    rangeApis w conf symbol apis dss =
    inl match apis with
        | [] => dss
        | _ :: _ => <[symbol := (default [] (dss !! symbol) ++ sources)%list]> dss
        end.
Proof.
  revert dss. induction apis as [| a apis IH]; intros dss Hall.
  { exists []. split; [constructor | reflexivity]. }
  inversion Hall as [| ? ? Ha Hapis]; subst.
  destruct (createDataSource_no_parser_check w conf symbol a Ha) as (src & Hsrc).
  destruct (IH (appendSource symbol src dss) Hapis) as (sources & Hsources & Hrange).
  exists (src :: sources). split; [constructor; assumption |].
  cbn [rangeApis]. rewrite Hsrc, Hrange. f_equal.
  destruct apis as [| b apis].
  - inversion Hsources; subst. reflexivity.
  - unfold appendSource. rewrite lookup_insert_eq. cbn [default].
    rewrite insert_insert_eq. unfold id.
    rewrite <- app_assoc. reflexivity.
Qed.

Lemma rangeIndexes_plain w conf indexes dss :
  NoDup (map fst indexes) ->
  Forall (fun entry => Forall plain (snd entry)) indexes ->
  exists dss',
    rangeIndexes w conf indexes dss = inl dss' /\
    (forall symbol, symbol ∉ map fst indexes -> dss' !! symbol = dss !! symbol) /\
    (forall symbol apis, (symbol, apis) ∈ indexes ->
       exists sources,
         Forall2 (fun api source => createDataSource w conf symbol api = Built source)
           apis sources /\
         dss' !! symbol =
         match apis with
         | [] => dss !! symbol
         | _ :: _ => Some (default [] (dss !! symbol) ++ sources)%list
         end).
Proof.
  revert dss. induction indexes as [| [s l] indexes IH]; intros dss Hnodup Hall.
  { exists dss. split; [reflexivity |]. split; [reflexivity |].
    intros symbol apis H. inversion H. }
  cbn [map fst] in Hnodup. apply NoDup_cons in Hnodup as (Hfresh & Hnodup).
  inversion Hall as [| ? ? Hl Hrest]; subst. cbn [snd] in Hl.
  destruct (rangeApis_plain w conf s l dss Hl) as (sources & Hsources & Hrange).
  set (dss1 := match l with
               | [] => dss
               | _ :: _ => <[s := (default [] (dss !! s) ++ sources)%list]> dss
               end) in *.
  assert (Hother : forall symbol, symbol <> s -> dss1 !! symbol = dss !! symbol).
  { intros symbol Hne. subst dss1. destruct l; [reflexivity |].
    apply lookup_insert_ne. congruence. }
  destruct (IH dss1 Hnodup Hrest) as (dss' & Hloop & Hout & Hin).
  exists dss'. split; [cbn [rangeIndexes]; rewrite Hrange; exact Hloop |].
  split.
  - intros symbol Hsym. cbn [map fst] in Hsym.
    apply not_elem_of_cons in Hsym as (Hne & Hsym).
    rewrite (Hout symbol Hsym). apply Hother, Hne.
  - intros symbol apis Hmem. apply elem_of_cons in Hmem as [Heq | Hmem].
    + inversion Heq; subst. exists sources. split; [exact Hsources |].
      rewrite (Hout s Hfresh). subst dss1. destruct l; [reflexivity |].
      apply lookup_insert_eq.
    + assert (Hne : symbol <> s).
      { intros ->. apply Hfresh.
        apply list_elem_of_In, in_map_iff. exists (s, apis).
        split; [reflexivity | apply list_elem_of_In, Hmem]. }
      destruct (Hin symbol apis Hmem) as (srcs & Hsrcs & Hlook).
      exists srcs. split; [exact Hsrcs |].
      rewrite Hlook, (Hother symbol Hne). reflexivity.
Qed.

(** A catalog of HTTP and manual descriptors always loads, whatever the
    descriptors hold: [New] builds a tracker that has, for every symbol with
    descriptors, one source per descriptor in catalog order, and nothing for a
    symbol whose descriptor list is empty or that the catalog does not name;
    so the count of the symbol's api-count loop is its number of
    descriptors. *)
Theorem plain_catalog_loads w conf byteValue indexes :
  ReadFile w (Config.ApiFile conf) = Ok byteValue ->
  Unmarshal_indexes w byteValue = Ok indexes ->
  NoDup (map fst indexes) ->
  Forall (fun entry => Forall plain (snd entry)) indexes ->
  exists self,
    New w conf = Ok self /\
    cfg self = conf /\
    (forall symbol, symbol ∉ map fst indexes -> dataSources self !! symbol = None) /\
    (forall symbol apis, (symbol, apis) ∈ indexes ->
       match apis with
       | [] => dataSources self !! symbol = None
       | _ :: _ =>
           exists sources,
             dataSources self !! symbol = Some sources /\
             Forall2 (fun api source =>
                        createDataSource w conf symbol api = Built source)
               apis sources /\
             go_recordApiCount (Z.of_nat (length apis)) symbol ∈ Run self
       end).
Proof.
  intros Hread Hjson Hnodup Hall.
  destruct (rangeIndexes_plain w conf indexes ∅ Hnodup Hall)
    as (dss & Hloop & Hout & Hin).
  exists {| cfg := conf; dataSources := dss |}.
  split; [unfold New, createDataSources; rewrite Hread, Hjson, Hloop; reflexivity |].
  split; [reflexivity |]. cbn [dataSources]. split.
  - intros symbol Hsym. rewrite (Hout symbol Hsym). apply lookup_empty.
  - intros symbol apis Hmem.
    destruct (Hin symbol apis Hmem) as (sources & Hsources & Hlook).
    rewrite lookup_empty in Hlook. destruct apis as [| a apis]; [exact Hlook |].
    cbn [default app] in Hlook.
    exists sources. split; [exact Hlook |]. split; [exact Hsources |].
    eapply runSymbol_in_Run; [exact Hlook |].
    unfold runSymbol. rewrite (Forall2_length _ _ _ Hsources).
    apply elem_of_cons. left. reflexivity.
Qed.

Lemma plain_catalog_loads_witness :
  exists self,
    New (worldWith plainCatalog) cfg30 = Ok self /\
    cfg self = cfg30 /\
    (forall symbol, symbol ∉ map fst plainCatalog -> dataSources self !! symbol = None) /\
    (forall symbol apis, (symbol, apis) ∈ plainCatalog ->
       match apis with
       | [] => dataSources self !! symbol = None
       | _ :: _ =>
           exists sources,
             dataSources self !! symbol = Some sources /\
             Forall2 (fun api source =>
                        createDataSource (worldWith plainCatalog) cfg30 symbol api
                        = Built source)
               apis sources /\
             go_recordApiCount (Z.of_nat (length apis)) symbol ∈ Run self
       end).
Proof.
  apply (plain_catalog_loads (worldWith plainCatalog) cfg30 "{}" plainCatalog).
  - reflexivity.
  - reflexivity.
  - apply (bool_decide_unpack (NoDup (map fst plainCatalog))). vm_compute. reflexivity.
  - constructor; [| constructor; [constructor | constructor]].
    constructor; [left; reflexivity |].
    constructor; [right; right; reflexivity | constructor].
Defined.

(** The tracker of that catalog: two sources for the one symbol, none for
    the other, and three goroutines. *)
Example plainCatalog_Run :
  exists self,
    New (worldWith plainCatalog) cfg30 = Ok self /\
    Run self =
      [ go_recordApiCount 2 "BTC/USD";
        go_recordValues 0 "BTC/USD" (30 * time.Second)
          (JSONapi "http://t/" (5 * time.Second) 0 (Some {| param := "$.p" |}));
        go_recordValues 1 "BTC/USD" (30 * time.Second)
          (JSONfile (Some {| param := "$.p" |}) "configs/manualData.json") ].
Proof. eexists. split; vm_compute; reflexivity. Qed.

(** * Properties of [JsonPathParser.Parse] *)

(** From the fourth item on nothing is parsed. *)
Lemma parseItems_tail L i items p v t :
  (3 <= i)%nat ->
  parseItems L i items p v t = {| price := p; volume := v; ts := t; err := None |}.
Proof.
  revert i. induction items as [| a items IH]; intros i Hi; [reflexivity |].
  destruct i as [| [| [| i]]]; try lia.
  cbn [parseItems]. apply IH. lia.
Qed.

Lemma parseItems_error L i items p v t :
  ((i <= 2)%nat -> t = time.zero) ->
  err (parseItems L i items p v t) <> None ->
  price (parseItems L i items p v t) = 0%float /\
  volume (parseItems L i items p v t) = 0%float /\
  ts (parseItems L i items p v t) = time.zero.
Proof.
  revert i p v t. induction items as [| a items IH]; intros i p v t Ht;
    [cbn; congruence |].
  destruct i as [| [| [| i]]]; cbn [parseItems].
  - destruct (ParseFloat L (stripCommas (Sprintf_v L a))).
    + apply IH. exact (fun _ => Ht ltac:(lia)).
    + cbn. intros _. rewrite Ht by lia. auto.
  - destruct (ParseFloat L (stripCommas (Sprintf_v L a))).
    + apply IH. exact (fun _ => Ht ltac:(lia)).
    + cbn. intros _. rewrite Ht by lia. auto.
  - destruct (ParseFloat L (stripCommas (Sprintf_v L a))).
    + rewrite parseItems_tail by lia. cbn. congruence.
    + cbn. intros _. rewrite Ht by lia. auto.
  - rewrite parseItems_tail by lia. cbn. congruence.
Qed.

(** Whenever [Parse] returns an error, the price and the volume it returns
    are zero and the timestamp is the zero time. *)
Theorem Parse_error_returns_zeros L self input :
  err (JsonPathParser_Parse L self input) <> None ->
  price (JsonPathParser_Parse L self input) = 0%float /\
  volume (JsonPathParser_Parse L self input) = 0%float /\
  ts (JsonPathParser_Parse L self input) = time.zero.
Proof.
  unfold JsonPathParser_Parse. cbv zeta.
  destruct (json_Unmarshal L input) as [output | e]; [| cbn; auto].
  destruct (jsonpath_Read L output (param self)) as [out | e]; [| cbn; auto].
  apply parseItems_error. reflexivity.
Qed.

(** The items of a list result are read by position, price, volume and
    Unix seconds, and whatever follows the third item is ignored, numeric or
    not. *)
Theorem Parse_reads_three_items L self input output a0 a1 a2 rest v0 v1 v2 :
  json_Unmarshal L input = Ok output ->
  jsonpath_Read L output (param self) = Ok (JArray (a0 :: a1 :: a2 :: rest)) ->
  ParseFloat L (stripCommas (Sprintf_v L a0)) = Ok v0 ->
  ParseFloat L (stripCommas (Sprintf_v L a1)) = Ok v1 ->
  ParseFloat L (stripCommas (Sprintf_v L a2)) = Ok v2 ->
  JsonPathParser_Parse L self input =
  {| price := v0; volume := v1;
     ts := time.Unix (int64_of_float L v2) 0; err := None |}.
Proof.
  intros Hjson Hread H0 H1 H2. unfold JsonPathParser_Parse. cbv zeta.
  rewrite Hjson, Hread. cbn [parseItems]. rewrite H0, H1, H2.
  apply parseItems_tail. lia.
Qed.



(** ** Thousands separators. *)

Lemma stripCommas_no_comma s :
  ~ In ","%char (list_ascii_of_string (stripCommas s)).
Proof.
  induction s as [| c s IH]; cbn; [tauto |].
  destruct (Ascii.eqb_spec c ","%char) as [-> | Hne]; [exact IH |].
  cbn. intros [H | H]; [congruence | exact (IH H)].
Qed.

Lemma parseItems_same_floats L L' i items p v t :
  (forall a, Sprintf_v L' a = Sprintf_v L a) ->
  (forall f, int64_of_float L' f = int64_of_float L f) ->
  (forall s, ~ In ","%char (list_ascii_of_string s) ->
             ParseFloat L' s = ParseFloat L s) ->
  parseItems L' i items p v t = parseItems L i items p v t.
Proof.
  intros Hprint Hint Hfloat. revert i p v t.
  induction items as [| a items IH]; intros i p v t; [reflexivity |].
  cbn [parseItems]. rewrite Hprint, (Hfloat _ (stripCommas_no_comma _)).
  destruct i as [| [| [| i]]];
    try (destruct (ParseFloat L (stripCommas (Sprintf_v L a))); [| reflexivity]);
    try rewrite Hint; apply IH.
Qed.

(** [ParseFloat] is never handed a comma: two float parsers that agree on
    the strings without commas give the same [Parse]. *)
Theorem Parse_strips_commas L L' self input :
  (forall s, json_Unmarshal L' s = json_Unmarshal L s) ->
  (forall output prm, jsonpath_Read L' output prm = jsonpath_Read L output prm) ->
  (forall a, Sprintf_v L' a = Sprintf_v L a) ->
  (forall f, int64_of_float L' f = int64_of_float L f) ->
  (forall s, ~ In ","%char (list_ascii_of_string s) ->
             ParseFloat L' s = ParseFloat L s) ->
  JsonPathParser_Parse L' self input = JsonPathParser_Parse L self input.
Proof.
  intros Hjson Hread Hprint Hint Hfloat. unfold JsonPathParser_Parse. cbv zeta.
  rewrite Hjson. destruct (json_Unmarshal L input) as [output | e]; [| reflexivity].
  rewrite Hread.
  destruct (jsonpath_Read L output (param self)) as [out | e]; [| reflexivity].
  apply parseItems_same_floats; assumption.
Qed.

Lemma Parse_error_returns_zeros_witness :
  price (JsonPathParser_Parse (toyLibs [JString "7"; JString "n/a"])
           {| param := "$.p" |} "{}") = 0%float /\
  volume (JsonPathParser_Parse (toyLibs [JString "7"; JString "n/a"])
            {| param := "$.p" |} "{}") = 0%float /\
  ts (JsonPathParser_Parse (toyLibs [JString "7"; JString "n/a"])
        {| param := "$.p" |} "{}") = time.zero.
Proof.
  apply (Parse_error_returns_zeros (toyLibs [JString "7"; JString "n/a"])
           {| param := "$.p" |} "{}").
  vm_compute. congruence.
Defined.

Lemma Parse_reads_three_items_witness :
  JsonPathParser_Parse (toyLibs fourItems) {| param := "$.p" |} "{}" =
  {| price := 1234.5%float; volume := 0%float;
     ts := time.Unix (int64_of_float (toyLibs fourItems) 7%float) 0; err := None |}.
Proof.
  apply (Parse_reads_three_items (toyLibs fourItems) {| param := "$.p" |} "{}"
           (JArray fourItems)
           (JString "1,234.5") (JString "0") (JString "7") [JString "n/a"]);
    reflexivity.
Defined.


Lemma Parse_strips_commas_witness :
  JsonPathParser_Parse (toyLibs2 fourItems) {| param := "$.p" |} "{}" =
  JsonPathParser_Parse (toyLibs fourItems) {| param := "$.p" |} "{}".
Proof.
  apply (Parse_strips_commas (toyLibs fourItems) (toyLibs2 fourItems)
           {| param := "$.p" |} "{}"); try reflexivity.
  intros s Hs. cbn. destruct (String.eqb_spec s "1,0") as [-> | _]; [| reflexivity].
  exfalso. apply Hs. cbn. auto.
Defined.

(** * Properties of the commands *)

(** [getAccountFor] never indexes out of range, and it returns an account
    exactly for a number from zero up to the number of accounts, the account
    at that position; for every other number, negative ones included, it
    returns its error. *)
Theorem getAccountFor_in_range {Account : Type} (accounts : list Account) (n : Z) :
  getAccountFor accounts n <> None /\
  (forall account,
     getAccountFor accounts n = Some (Ok account) <->
     0 <= n /\ accounts !! Z.to_nat n = Some account) /\
  (getAccountFor accounts n = Some (Err "account not found") <->
   n < 0 \/ Z.of_nat (length accounts) <= n).
Proof.
  unfold getAccountFor.
  destruct (Z.ltb_spec n 0) as [Hneg | Hpos]; cbn [orb].
  { split; [discriminate |]. split.
    - intros account. split; [discriminate | lia].
    - split; auto. }
  destruct (Z.geb_spec n (Z.of_nat (length accounts))) as [Hbig | Hsmall].
  { split; [discriminate |]. split.
    - intros account. split; [discriminate |].
      intros (_ & H). apply lookup_lt_Some in H. lia.
    - split; [intros _; right; lia | reflexivity]. }
  assert (Hin : (Z.to_nat n < length accounts)%nat) by lia.
  apply lookup_lt_is_Some_2 in Hin. destruct Hin as (a & Ha). rewrite Ha.
  split; [discriminate |]. split.
  - intros account. split.
    + intros H. inversion H; subst. auto.
    + intros (_ & H). congruence.
  - split; [discriminate | lia].
Qed.



(** [migrateCmd] stops at the first account that fails and does not undo
    what it has sent: the transactions sent are those of the accounts before
    the failing one, in order, each prepared and accepted by the contract; no
    error means that every account was migrated, and an error names the
    account at which the loop stopped. *)
Theorem migrate_stops_at_first_failure env accounts :
  Forall2 (fun account tx =>
             exists auth, PrepareEthTransaction env account = Ok auth /\
                          contract_Migrate env auth = Ok tx)
    (take (length (fst (migrateAccounts env accounts))) accounts)
    (fst (migrateAccounts env accounts)) /\
  (snd (migrateAccounts env accounts) = None <->
   length (fst (migrateAccounts env accounts)) = length accounts) /\
  (forall e, snd (migrateAccounts env accounts) = Some e ->
     exists account,
       accounts !! length (fst (migrateAccounts env accounts)) = Some account /\
       ((exists e1, PrepareEthTransaction env account = Err e1 /\
                    e = String.append "prepare ethereum transaction: " e1) \/
        (exists auth e1, PrepareEthTransaction env account = Ok auth /\
                         contract_Migrate env auth = Err e1 /\
                         e = String.append "contract failed: " e1))).
Proof.
  induction accounts as [| account accounts IH]; cbn [migrateAccounts].
  { cbn. split; [constructor |]. split; [tauto | discriminate]. }
  destruct (PrepareEthTransaction env account) as [auth | e1] eqn:Hprep.
  2:{ cbn. split; [constructor |]. split; [split; discriminate |].
      intros e H. inversion H. exists account. split; [reflexivity |]. left. eauto. }
  destruct (contract_Migrate env auth) as [tx | e1] eqn:Hmig.
  2:{ cbn. split; [constructor |]. split; [split; discriminate |].
      intros e H. inversion H. exists account. split; [reflexivity |]. right. eauto. }
  destruct (migrateAccounts env accounts) as [txs err].
  cbn [fst snd length take] in *. destruct IH as (Hsent & Hnone & Hsome).
  split; [constructor; eauto |]. split.
  - rewrite Hnone. split; [congruence | intros H; inversion H; reflexivity].
  - intros e He. destruct (Hsome e He) as (a & Ha & Hfail). exists a.
    split; [exact Ha | exact Hfail].
Qed.

(** The run of [migrateCmd] on [twoAccounts]: the first account is
    migrated, the second refused, the third never tried. *)
Example migrate_twoAccounts :
  migrateCmd_Run twoAccounts "config.json" = (["tx1"], Some "contract failed: reverted").
Proof. reflexivity. Qed.

(** When the aggregator's threshold is left unset, [mineCmd] sets it one
    second above the period at which every loop of the tracker ticks. *)
Theorem unset_threshold_is_tick_plus_second w conf self g :
  New w conf = Ok self ->
  g ∈ Run self ->
  0 <= Config.Interval conf < 2 ^ 63 - time.Second ->
  defaultConfidIntvThreshold 0 (Config.Interval conf) =
  tickerPeriod self g + time.Second.
Proof.
  intros Hnew Hg Hrange.
  rewrite (Run_ticks_at_default w conf self g Hnew Hg).
  unfold defaultConfidIntvThreshold. cbn [Z.eqb].
  apply wrap64_small. change time.Second with 1000000000 in *.
  change (2 ^ 63) with 9223372036854775808 in *. lia.
Qed.

Lemma unset_threshold_is_tick_plus_second_witness :
  defaultConfidIntvThreshold 0 (Config.Interval cfg30) =
  tickerPeriod {| cfg := cfg30;
                  dataSources :=
                    {[ "BTC/USD" := [JSONapi "http://t/" (5 * time.Second) 0
                                       (Some {| param := "$.p" |})] ]} |}
    (go_recordApiCount 1 "BTC/USD") + time.Second.
Proof.
  apply (unset_threshold_is_tick_plus_second (worldWith [("BTC/USD", [goodHttp])])
           cfg30).
  - vm_compute. reflexivity.
  - vm_compute. left.
  - vm_compute. split; congruence.
Defined.

(** * When the tracker cannot panic *)

Lemma Get_parserSet w ds : parserSet ds = true -> Get w ds <> None.
Proof.
  destruct ds as [url retry iv [jp |] | [jp |] path | pool | pool]; cbn;
    try discriminate; intros _.
  - destruct (http_Fetch w url retry); discriminate.
  - destruct (ReadFile w path); discriminate.
Qed.

Lemma stepWorker_sound o wk st :
  sound wk ->
  exists wk' st', stepWorker o wk st = Some (wk', st') /\ sound wk'.
Proof.
  intros (Hperiod & Hcode). unfold stepWorker, goto, sound.
  destruct (at_ wk).
  - destruct (Z.leb_spec (period wk) 0); [lia |]. eauto.
  - destruct (cancelled st); eauto.
  - destruct (body (code wk) o st) as [st' |] eqn:Hb; [eauto |].
    exfalso. destruct (code wk) as [count symbol | delay symbol interval ds];
      cbn in Hb; [discriminate |].
    unfold recordValuesBody in Hb.
    pose proof (Get_parserSet (world o) ds Hcode) as Hget.
    destruct (Get (world o) ds) as [vals |]; [| congruence].
    destruct (err vals); [discriminate |].
    destruct (negb (time.IsZero (ts vals)) && time.After (now1 o) (ts vals));
      [discriminate |].
    cbv zeta in Hb. destruct (commitErr o); discriminate.
  - eauto.
  - exists wk, st. split; [reflexivity |]. split; assumption.
Qed.

Lemma run_sound evs s :
  crashed s = false ->
  Forall sound (workers s) ->
  crashed (run evs s) = false.
Proof.
  revert s. induction evs as [| ev evs IH]; intros s Hc Hall; [exact Hc |].
  rewrite run_cons. unfold step. rewrite Hc.
  destruct ev as [| i o]; [apply IH; [reflexivity | assumption] |].
  destruct (workers s !! i) as [wk |] eqn:Hi; [| apply IH; assumption].
  assert (Hwk : sound wk).
  { rewrite Forall_forall in Hall. apply Hall.
    apply list_elem_of_lookup. eauto. }
  destruct (stepWorker_sound o wk (state s) Hwk) as (wk' & st' & -> & Hwk').
  apply IH; [reflexivity |]. cbn [workers].
  apply Forall_insert; assumption.
Qed.

(** A tracker that [New] built with a positive default interval and whose
    sources all have a parser never panics, whatever its sources answer and
    however its goroutines are scheduled. *)
Theorem tracker_never_panics w conf self evs :
  New w conf = Ok self ->
  0 < Config.Interval conf ->
  (forall symbol dss ds,
     dataSources self !! symbol = Some dss -> ds ∈ dss -> parserSet ds = true) ->
  crashed (run evs (start self)) = false.
Proof.
  intros Hnew Hpos Hparsers. apply run_sound; [reflexivity |].
  unfold start. cbn [workers]. rewrite Forall_forall. intros wk Hwk.
  change (map (spawn self) (Run self)) with (spawn self <$> Run self) in Hwk.
  apply list_elem_of_fmap in Hwk as (g & -> & Hg).
  split.
  - cbn. rewrite (Run_ticks_at_default w conf self g Hnew Hg). exact Hpos.
  - cbn. destruct g as [count symbol | delay symbol interval ds]; [exact I |].
    unfold Run in Hg. apply list_elem_of_In, in_flat_map in Hg.
    destruct Hg as ([sym dss] & Hm & Hg).
    apply list_elem_of_In, elem_of_map_to_list in Hm.
    apply list_elem_of_In in Hg. unfold runSymbol in Hg.
    apply elem_of_cons in Hg as [Hg | Hg]; [discriminate |].
    apply elem_of_lookup_imap in Hg as (i & ds' & Heq & Hi).
    inversion Heq; subst. eapply Hparsers; [exact Hm |].
    apply list_elem_of_lookup. eauto.
Qed.

Lemma tracker_never_panics_witness :
  crashed (run twoPasses
             (start {| cfg := cfg30;
                       dataSources :=
                         {[ "BTC/USD" := [JSONapi "http://t/" (5 * time.Second) 0
                                            (Some {| param := "$.p" |})] ]} |}))
  = false.
Proof.
  apply (tracker_never_panics (worldWith [("BTC/USD", [goodHttp])]) cfg30).
  - vm_compute. reflexivity.
  - vm_compute. reflexivity.
  - intros symbol dss ds Hm Hds. cbn [dataSources] in Hm.
    destruct (decide (symbol = "BTC/USD")) as [-> | Hne].
    + rewrite lookup_singleton_eq in Hm. inversion Hm; subst.
      apply list_elem_of_singleton in Hds. subst. reflexivity.
    + rewrite lookup_singleton_ne in Hm by congruence. discriminate.
Defined.

(** * Properties of [CurrentVariablesTracker.Exec] *)

Ltac exec_cases :=
  unfold Exec, bind, ret, orFatal, orReturn, DB_Get, DB_Put, DB_Delete;
  repeat match goal with
    | |- context [match ?x with Ok _ => _ | Err _ => _ end] =>
        destruct x eqn:?; cbn [fst snd app puts omap]
    | |- context [match ?x with Some _ => _ | None => _ end] =>
        destruct x eqn:?; cbn [fst snd app puts omap]
    | |- context [if ?x then _ else _] =>
        destruct x eqn:?; cbn [fst snd app puts omap]
    end.

Lemma copyInto_length n src : String.length (copyInto n src) = n.
Proof.
  revert src. induction n as [| n IH]; intros src; [reflexivity |].
  cbn. destruct src; cbn; rewrite IH; reflexivity.
Qed.



(** When [Exec] returns nil, what it has written is the contract's current
    variables: the challenge and the query string as they are, the four
    numbers hex-encoded, and as mining status one byte, 1 if the contract
    reports the current challenge as mined by the configured address and 0 if
    not. *)
Theorem Exec_stores_current_variables w :
  snd (Exec w) = Returns None ->
  exists addr vars mined,
    GetConfig w = Ok addr /\
    GetCurrentVariables w = Ok vars /\
    DidMine w (currentChallenge vars) (HexToAddress w addr) = Ok mined /\
    puts (fst (Exec w)) =
      [ (CurrentChallengeKey, currentChallenge vars);
        (RequestIdKey, EncodeBig w (requestID vars));
        (DifficultyKey, EncodeBig w (difficulty vars));
        (QueryStringKey, queryString vars);
        (GranularityKey, EncodeBig w (granularity vars));
        (TotalTipKey, EncodeBig w (totalTip vars));
        (MiningStatusKey, if mined then byte1 else byte0) ].
Proof.
  exec_cases; try discriminate; intros _;
    eexists _, _, _; repeat split; try eassumption; reflexivity.
Qed.

Lemma Exec_stores_current_variables_witness :
  exists addr vars mined,
    GetConfig minedWorld = Ok addr /\
    GetCurrentVariables minedWorld = Ok vars /\
    DidMine minedWorld (currentChallenge vars) (HexToAddress minedWorld addr)
      = Ok mined /\
    puts (fst (Exec minedWorld)) =
      [ (CurrentChallengeKey, currentChallenge vars);
        (RequestIdKey, EncodeBig minedWorld (requestID vars));
        (DifficultyKey, EncodeBig minedWorld (difficulty vars));
        (QueryStringKey, queryString vars);
        (GranularityKey, EncodeBig minedWorld (granularity vars));
        (TotalTipKey, EncodeBig minedWorld (totalTip vars));
        (MiningStatusKey, if mined then byte1 else byte0) ].
Proof.
  apply (Exec_stores_current_variables minedWorld). reflexivity.
Defined.

(** [Exec] deletes nothing but the pending challenge, and that only when
    the database holds a pending challenge that is not empty and the contract
    reports it, copied into 32 bytes, as mined by the configured address. *)
Theorem Exec_deletes_only_mined_pending w key :
  DBDelete key ∈ fst (Exec w) ->
  key = PendingChallengeKey /\
  exists addr pending,
    GetConfig w = Ok addr /\
    db_Get w PendingChallengeKey = Ok pending /\
    pending <> EmptyString /\
    String.length (copyInto 32 pending) = 32%nat /\
    DidMine w (copyInto 32 pending) (HexToAddress w addr) = Ok true.
Proof.
  assert (Hpending : forall pending : string,
            (0 <? String.length pending)%nat = true -> pending <> EmptyString).
  { intros pending H ->. discriminate. }
  exec_cases; intros Hin;
    repeat (apply elem_of_cons in Hin as [Hin | Hin]; [try discriminate |]);
    try (inversion Hin; fail);
    (inversion Hin; subst; split; [reflexivity |];
     eexists _, _; repeat split; try eassumption;
     [apply Hpending; assumption | apply copyInto_length]).
Qed.

Lemma Exec_deletes_only_mined_pending_witness :
  PendingChallengeKey = PendingChallengeKey /\
  exists addr pending,
    GetConfig minedWorld = Ok addr /\
    db_Get minedWorld PendingChallengeKey = Ok pending /\
    pending <> EmptyString /\
    String.length (copyInto 32 pending) = 32%nat /\
    DidMine minedWorld (copyInto 32 pending) (HexToAddress minedWorld addr) = Ok true.
Proof.
  apply (Exec_deletes_only_mined_pending minedWorld PendingChallengeKey).
  vm_compute. right. left.
Defined.

(** [Exec] touches the database only after the configuration and the
    contract have answered, and it starts by reading the pending challenge:
    its log is empty exactly when one of the two failed, and otherwise opens
    with that read, the only read it makes. *)
Theorem Exec_reads_first w :
  (fst (Exec w) = [] <->
   (exists e, GetConfig w = Err e) \/ (exists e, GetCurrentVariables w = Err e)) /\
  (fst (Exec w) = [] \/
   exists rest, fst (Exec w) = DBGet PendingChallengeKey :: rest /\
                forall key, DBGet key ∉ rest).
Proof.
  split.
  - exec_cases; split; try discriminate; try reflexivity;
      try (intros _; first [left; eexists; reflexivity | right; eexists; reflexivity]);
      intros [[? ?] | [? ?]]; congruence.
  - exec_cases; try (left; reflexivity);
      right; eexists; (split; [reflexivity |]);
      intros key Hin;
      repeat (apply elem_of_cons in Hin as [Hin | Hin]; [discriminate |]);
      inversion Hin.
Qed.

(** * When [Get] panics *)

(** [Get] panics exactly when the source was built without a parser and its
    fetch, or the read of its file, succeeds: a failing fetch returns its
    error before the parser is called. *)
Theorem Get_panics_iff w ds :
  Get w ds = None <->
  (exists url retryDelay interval vals,
     ds = JSONapi url retryDelay interval None /\
     http_Fetch w url retryDelay = Ok vals) \/
  (exists filepath b, ds = JSONfile None filepath /\ ReadFile w filepath = Ok b).
Proof.
  split.
  - destruct ds as [url retry iv [jp |] | [jp |] path | pool | pool]; cbn.
    + destruct (http_Fetch w url retry); discriminate.
    + destruct (http_Fetch w url retry) as [vals | e] eqn:H; [| discriminate].
      intros _. left. exists url, retry, iv, vals. auto.
    + destruct (ReadFile w path); discriminate.
    + destruct (ReadFile w path) as [b | e] eqn:H; [| discriminate].
      intros _. right. exists path, b. auto.
    + discriminate.
    + discriminate.
  - intros [(url & retry & iv & vals & -> & H) | (path & b & -> & H)]; cbn;
      rewrite H; reflexivity.
Qed.
